(** * BLS signature wrapper (package [blst], file signature.go)

    A shallow embedding of the signature layer of the validator: decoding,
    the three verification entry points, signature aggregation and the
    batch verifier [VerifyMultipleSignatures] with its duplicate filter
    [removeDuplicates].

    The pairing library (supranational/blst) is an external dependency of
    the package.  Its operations are the fields of the class [Blst]; every
    definition below is written against that interface.  The instance
    [Toy.toy_blst], a scheme over the integers, serves to evaluate the
    definitions on concrete batches. *)

From Stdlib Require Import ZArith.
From Stdlib Require Import Strings.Byte.
From stdpp Require Import base option list gmap strings.

Local Open Scope nat_scope.

(** ** Bytes *)

(** Go's [[]byte]; a [[32]byte] message is a byte list as well. *)
Abbreviation bytes := (list Byte.byte).

#[global] Instance byte_eq_dec : EqDecision Byte.byte := Byte.byte_eq_dec.

#[global] Program Instance byte_countable : Countable Byte.byte :=
  inj_countable Byte.to_N Byte.of_N _.
Next Obligation. intros x. apply Byte.of_to_N. Qed.

(** [bytes.Equal]. *)
Definition bytes_Equal (a b : bytes) : bool := bool_decide (a = b).

(** ** Configuration read by the package *)

(** [featureconfig.Flags]: only the flag this file reads. *)
Record Flags := { SkipBLSVerify : bool }.

(** [params.BeaconChainConfig]: only the field this file reads. *)
Record BeaconChainConfig := { BLSSignatureLength : nat }.

(** The two process-wide getters, [featureconfig.Get()] and
    [params.BeaconConfig()], as an explicit environment. *)
Record Env := {
  featureconfig_Get : Flags;
  params_BeaconConfig : BeaconChainConfig
}.

(** ** Errors

    The source builds errors from message strings; one constructor per
    message, carrying the formatted numbers. *)
Inductive error :=
| ErrSignatureLength (want : nat)
    (* "signature must be %d bytes" *)
| ErrUnmarshalSignature
    (* "could not unmarshal bytes into signature" *)
| ErrDifferingLengths (S P M : nat)
    (* "provided signatures, pubkeys and messages have differing lengths.
        S: %d, P: %d,M %d" *)
| ErrInvalidPair
    (* "invalid signature and pubkey pair provided" *).

#[global] Instance error_eq_dec : EqDecision error.
Proof. solve_decision. Defined.

(** ** Run-time panics

    Index expressions and pointer dereferences panic in Go when they are
    out of range or nil.  [res A] is a computation that returns or panics. *)
Inductive res (A : Type) :=
| Val (a : A)
| Panic.
Arguments Val {A} a.
Arguments Panic {A}.

Definition res_bind {A B} (m : res A) (k : A → res B) : res B :=
  match m with
  | Val a => k a
  | Panic => Panic
  end.

Notation "x ←! m ; k" := (res_bind m (λ x, k))
  (at level 20, m at level 100, k at level 200, right associativity,
   format "x  ←!  m ;  '/' k").

(** [l[i]]: panics when [i] is out of range. *)
Definition index {A} (l : list A) (i : nat) : res A :=
  match l !! i with
  | Some a => Val a
  | None => Panic
  end.

(** [*p] and method calls through [p]: panic when [p] is nil. *)
Definition deref {A} (p : option A) : res A :=
  match p with
  | Some a => Val a
  | None => Panic
  end.

(** The outcome of one iteration of a [for] loop: fall through to the next
    iteration, leave the function with a [return], or panic. *)
Inductive step (S R : Type) :=
| Next (st : S)
| Return (r : R)
| Crash.
Arguments Next {S R} st.
Arguments Return {S R} r.
Arguments Crash {S R}.

Definition step_bind {A S R} (m : res A) (k : A → step S R) : step S R :=
  match m with
  | Val a => k a
  | Panic => Crash
  end.

Notation "x ←? m ; k" := (step_bind m (λ x, k))
  (at level 20, m at level 100, k at level 200, right associativity,
   format "x  ←?  m ;  '/' k").

(** [for i := from; i < from + n; i++ { body }]. *)
Fixpoint for_loop {S R} (body : nat → S → step S R) (n from : nat) (st : S)
  : step S R :=
  match n with
  | 0 => Next st
  | Datatypes.S n' =>
      match body from st with
      | Next st' => for_loop body n' (Datatypes.S from) st'
      | Return r => Return r
      | Crash => Crash
      end
  end.

(** The same loop over the elements of a slice instead of its indices. *)
Fixpoint run_list {E S R} (f : E → S → step S R) (l : list E) (st : S)
  : step S R :=
  match l with
  | [] => Next st
  | e :: l' =>
      match f e st with
      | Next st' => run_list f l' st'
      | Return r => Return r
      | Crash => Crash
      end
  end.

(** Three parallel slices as one list of triples. *)
Definition zip3 {A B C} (a : list A) (b : list B) (c : list C) : list (A * B * C) :=
  zip (zip a b) c.

(** ** The pairing library *)

(** The operations of supranational/blst that signature.go calls.
    [P1Affine] is [blstPublicKey], [P2Affine] is [blstSignature]; a pointer
    that may be nil is an [option]. *)
Class Blst := {
  P1Affine : Type;
  P2Affine : Type;
  P1Aggregate : Type;            (* blstAggregatePublicKey *)
  P2Aggregate : Type;            (* blstAggregateSignature *)
  P2 : Type;                     (* result of HashToG2 *)
  Scalar : Type;
  RandGen : Type;                (* state of rand.NewGenerator() *)

  P1Affine_Equals : P1Affine → P1Affine → bool;
  P2Affine_Equals : P2Affine → P2Affine → bool;

  (* nil when the bytes are no point *)
  P2Affine_Uncompress : bytes → option P2Affine;
  (* a nil slice when one of the signatures is no point *)
  P2Affine_BatchUncompress : list bytes → list P2Affine;
  P2Affine_Compress : option P2Affine → bytes;

  P2Affine_Verify : option P2Affine → P1Affine → bytes → bytes → bool;
  P2Affine_AggregateVerify :
    option P2Affine → list P1Affine → list bytes → bytes → bool;
  P2Affine_MultipleAggregateVerify :
    list P2Affine → list P1Affine → list bytes → bytes →
    (RandGen → Scalar * RandGen) → RandGen → nat → bool;

  (* nil when the aggregation fails; the elements of a signature slice are
     pointers, which AggregateSignatures may pass as nil *)
  P1Aggregate_Aggregate : list P1Affine → option P1Aggregate;
  P1Aggregate_ToAffine : P1Aggregate → P1Affine;
  P2Aggregate_Aggregate : list (option P2Affine) → option P2Aggregate;
  P2Aggregate_ToAffine : P2Aggregate → P2Affine;

  HashToG2 : bytes → bytes → P2;
  P2_ToAffine : P2 → P2Affine;

  RandGen_Read : RandGen → nat → bytes * RandGen;
  Scalar_FromBEndian : bytes → Scalar
}.

Section Signature.
Context `{B : Blst}.

(** [var dst = []byte("BLS_SIG_BLS12381G2_XMD:SHA-256_SSWU_RO_POP_")] *)
Definition dst : bytes :=
  String.list_byte_of_string "BLS_SIG_BLS12381G2_XMD:SHA-256_SSWU_RO_POP_".

Definition scalarBytes : nat := 32.
Definition randBitsEntropy : nat := 64.

(** [type Signature struct { s *blstSignature }] *)
Record Signature := mkSignature { Signature_s : option P2Affine }.

(** Modelled from the spec: the struct behind [iface.PublicKey], declared
    in public_key.go, which is missing: a PublicKey is a point in group G1.
    signature.go reads its field [p] and dereferences it without a nil
    check. *)
Record PublicKey := mkPublicKey { PublicKey_p : P1Affine }.

(** Modelled from the spec: the method [Equals] of [iface.PublicKey], whose
    implementation is missing: equality on PublicKey is defined by
    underlying point equality. *)
Definition PublicKey_Equals (a b : PublicKey) : bool :=
  P1Affine_Equals (PublicKey_p a) (PublicKey_p b).

(** Modelled from the spec: the library's [FastAggregateVerify], which is
    missing: aggregates all pubKeys into one key, then performs a
    single-message Verify. *)
Definition P2Affine_FastAggregateVerify
    (sig : option P2Affine) (pks : list P1Affine) (msg dst : bytes) : bool :=
  match P1Aggregate_Aggregate pks with
  | Some agg => P2Affine_Verify sig (P1Aggregate_ToAffine agg) msg dst
  | None => false
  end.

(** Modelled from the spec: aggregating public keys follows the same law
    as aggregating signatures; the result is nil when the library reports
    a failure. *)
Definition AggregatePublicKeys (pubKeys : list PublicKey) : option PublicKey :=
  match P1Aggregate_Aggregate (PublicKey_p <$> pubKeys) with
  | Some agg => Some (mkPublicKey (P1Aggregate_ToAffine agg))
  | None => None
  end.

(** [func SignatureFromBytes(sig []byte) (iface.Signature, error)] *)
Definition SignatureFromBytes (env : Env) (sig : bytes)
  : option Signature * option error :=
  if SkipBLSVerify (featureconfig_Get env) then
    (Some (mkSignature None), None)
  else if negb (length sig =? BLSSignatureLength (params_BeaconConfig env)) then
    (None, Some (ErrSignatureLength (BLSSignatureLength (params_BeaconConfig env))))
  else
    match P2Affine_Uncompress sig with
    | None => (None, Some ErrUnmarshalSignature)
    | Some signature => (Some (mkSignature (Some signature)), None)
    end.

(** [func (s *Signature) Verify(pubKey iface.PublicKey, msg []byte) bool] *)
Definition Verify (env : Env) (s : Signature) (pubKey : PublicKey) (msg : bytes)
  : bool :=
  if SkipBLSVerify (featureconfig_Get env) then true
  else P2Affine_Verify (Signature_s s) (PublicKey_p pubKey) msg dst.

(** [func (s *Signature) AggregateVerify(pubKeys []iface.PublicKey,
    msgs [][32]byte) bool].  The loop fills [msgSlices] and [rawKeys]
    position by position; both are maps over the inputs. *)
Definition AggregateVerify (env : Env) (s : Signature)
    (pubKeys : list PublicKey) (msgs : list bytes) : bool :=
  if SkipBLSVerify (featureconfig_Get env) then true
  else
    let size := length pubKeys in
    if size =? 0 then false
    else if negb (size =? length msgs) then false
    else
      let msgSlices := msgs in
      let rawKeys := PublicKey_p <$> pubKeys in
      P2Affine_AggregateVerify (Signature_s s) rawKeys msgSlices dst.

(** [func (s *Signature) FastAggregateVerify(pubKeys []iface.PublicKey,
    msg [32]byte) bool] *)
Definition FastAggregateVerify (env : Env) (s : Signature)
    (pubKeys : list PublicKey) (msg : bytes) : bool :=
  if SkipBLSVerify (featureconfig_Get env) then true
  else if length pubKeys =? 0 then false
  else
    let rawKeys := PublicKey_p <$> pubKeys in
    P2Affine_FastAggregateVerify (Signature_s s) rawKeys msg dst.


(** [func AggregateSignatures(sigs []iface.Signature) iface.Signature].
    The nil interface value is [None]. *)
Definition AggregateSignatures (env : Env) (sigs : list Signature)
  : option Signature :=
  match sigs with
  | [] => None
  | sig0 :: _ =>
      if SkipBLSVerify (featureconfig_Get env) then Some sig0
      else
        let rawSigs := Signature_s <$> sigs in
        match P2Aggregate_Aggregate rawSigs with
        | None => None
        | Some signature => Some (mkSignature (Some (P2Aggregate_ToAffine signature)))
        end
  end.

(** [func Aggregate(sigs []iface.Signature) iface.Signature] *)
Definition Aggregate (env : Env) (sigs : list Signature) : option Signature :=
  AggregateSignatures env sigs.

(** *** removeDuplicates *)

(** The locals of [removeDuplicates] that the loop updates. *)
Record dedup := mkDedup {
  newPubKeys : list PublicKey;
  newSigs : list bytes;
  newMsgs : list bytes;
  rd_msgMap : gmap bytes nat
}.

Definition dedup_init : dedup := mkDedup [] [] [] ∅.

(** [newX = append(newX, x)] for the three slices. *)
Definition dedup_append (pk : PublicKey) (sig msg : bytes) (st : dedup) : dedup :=
  mkDedup (newPubKeys st ++ [pk]) (newSigs st ++ [sig]) (newMsgs st ++ [msg])
          (rd_msgMap st).

(** The body of the loop of [removeDuplicates] at index [i]. *)
Definition removeDuplicates_body
    (sigs msgs : list bytes) (pubKeys : list PublicKey)
    (i : nat) (st : dedup) : step dedup error :=
  m ←? index msgs i;
  match rd_msgMap st !! m with
  | Some indx =>
      slotKey ←? index (newPubKeys st) indx;
      pk ←? index pubKeys i;
      let pubkeyEqual := PublicKey_Equals slotKey pk in
      slotSig ←? index (newSigs st) indx;
      sig ←? index sigs i;
      let signatureEqual := bytes_Equal slotSig sig in
      if (pubkeyEqual && negb signatureEqual) || (negb pubkeyEqual && signatureEqual)
      then Return ErrInvalidPair
      else if pubkeyEqual && signatureEqual then Next st
      else Next (dedup_append pk sig m st)
  | None =>
      let addedIdx := length (newPubKeys st) in
      pk ←? index pubKeys i;
      sig ←? index sigs i;
      let st' := dedup_append pk sig m st in
      Next (mkDedup (newPubKeys st') (newSigs st') (newMsgs st')
                    (<[m := addedIdx]> (rd_msgMap st)))
  end.

(** [func removeDuplicates(sigs [][]byte, msgs [][32]byte,
    pubKeys []iface.PublicKey) ([][]byte, [][32]byte, []iface.PublicKey, error)] *)
Definition removeDuplicates
    (sigs msgs : list bytes) (pubKeys : list PublicKey)
  : res (list bytes * list bytes * list PublicKey * option error) :=
  let length := length sigs in
  match for_loop (removeDuplicates_body sigs msgs pubKeys) length 0 dedup_init with
  | Next st => Val (newSigs st, newMsgs st, newPubKeys st, None)
  | Return err => Val ([], [], [], Some err)
  | Crash => Panic
  end.

(** *** VerifyMultipleSignatures *)

(** The locals of [VerifyMultipleSignatures] that its loop updates. *)
Record batch := mkBatch {
  mulP1Aff : list P1Affine;
  rawMsgs : list bytes;
  mulP2Aff : list P2Affine;
  msgMap : gmap bytes nat;
  repeatedSigs : nat
}.

Definition batch_init : batch := mkBatch [] [] [] ∅ 0.

(** The body of the loop of [VerifyMultipleSignatures] at index [i].  The
    loop has no [return] statement. *)
Definition VerifyMultipleSignatures_body
    (rawSigs : list P2Affine) (msgs : list bytes) (pubKeys : list PublicKey)
    (i : nat) (st : batch) : step batch Empty_set :=
  m ←? index msgs i;
  match msgMap st !! m with
  | Some indx =>
      let repeated := Datatypes.S (repeatedSigs st) in
      pk ←? index pubKeys i;
      let npKey := PublicKey_p pk in
      nSig ←? index rawSigs i;
      slotKey ←? index (mulP1Aff st) indx;
      same ←? (if P1Affine_Equals slotKey npKey
               then slotSig ←! index (mulP2Aff st) indx;
                    Val (P2Affine_Equals slotSig nSig)
               else Val false);
      if (same : bool) then
        Next (mkBatch (mulP1Aff st) (rawMsgs st) (mulP2Aff st) (msgMap st) repeated)
      else
        aggKey ←? deref (P1Aggregate_Aggregate [slotKey; npKey]);
        let af := P1Aggregate_ToAffine aggKey in
        slotSig ←? index (mulP2Aff st) indx;
        aggSig ←? deref (P2Aggregate_Aggregate [Some slotSig; Some nSig]);
        let as_ := P2Aggregate_ToAffine aggSig in
        Next (mkBatch (<[indx := af]> (mulP1Aff st)) (rawMsgs st)
                      (<[indx := as_]> (mulP2Aff st)) (msgMap st) repeated)
  | None =>
      let addedIdx := length (mulP1Aff st) in
      pk ←? index pubKeys i;
      let npKey := PublicKey_p pk in
      nSig ←? index rawSigs i;
      Next (mkBatch (mulP1Aff st ++ [npKey]) (rawMsgs st ++ [m])
                    (mulP2Aff st ++ [nSig]) (<[m := addedIdx]> (msgMap st))
                    (repeatedSigs st))
  end.

(** The closure [randFunc]: read [scalarBytes] bytes from the generator and
    load them into the scalar. *)
Definition randFunc (randGen : RandGen) : Scalar * RandGen :=
  let '(rbytes, randGen') := RandGen_Read randGen scalarBytes in
  (Scalar_FromBEndian rbytes, randGen').

(** [func VerifyMultipleSignatures(sigs [][]byte, msgs [][32]byte,
    pubKeys []iface.PublicKey) (bool, error)].  [randGen] is the generator
    that [rand.NewGenerator()] hands out; the line written to the log after
    the loop is not part of the result. *)
Definition VerifyMultipleSignatures (env : Env) (randGen : RandGen)
    (sigs msgs : list bytes) (pubKeys : list PublicKey)
  : res (bool * option error) :=
  if SkipBLSVerify (featureconfig_Get env) then Val (true, None)
  else if (length sigs =? 0) || (length pubKeys =? 0) then Val (false, None)
  else
    let length0 := length sigs in
    if negb (length0 =? length pubKeys) || negb (length0 =? length msgs) then
      Val (false, Some (ErrDifferingLengths length0 (length pubKeys) (length msgs)))
    else
      r ←! removeDuplicates sigs msgs pubKeys;
      let '(sigs, msgs, pubKeys, err) := r in
      match err with
      | Some e => Val (false, Some e)
      | None =>
          let rawSigs := P2Affine_BatchUncompress sigs in
          let length1 := length rawSigs in
          match for_loop (VerifyMultipleSignatures_body rawSigs msgs pubKeys)
                         length1 0 batch_init with
          | Next st =>
              Val (P2Affine_MultipleAggregateVerify
                     (mulP2Aff st) (mulP1Aff st) (rawMsgs st) dst
                     randFunc randGen randBitsEntropy, None)
          | Return r => match r with end
          | Crash => Panic
          end
      end.

(** [func (s *Signature) Marshal() []byte] *)
Definition Marshal (env : Env) (s : Signature) : bytes :=
  if SkipBLSVerify (featureconfig_Get env) then
    replicate (BLSSignatureLength (params_BeaconConfig env)) Byte.x00
  else P2Affine_Compress (Signature_s s).

(** *** Batches as lists of entries *)

(** One entry of a batch: signature bytes, message, public key. *)
Definition entry : Type := bytes * bytes * PublicKey.
Definition e_sig (e : entry) : bytes := e.1.1.
Definition e_msg (e : entry) : bytes := e.1.2.
Definition e_key (e : entry) : PublicKey := e.2.

(** The three slices passed for a batch. *)
Definition sigs_of (b : list entry) : list bytes := e_sig <$> b.
Definition msgs_of (b : list entry) : list bytes := e_msg <$> b.
Definition keys_of (b : list entry) : list PublicKey := e_key <$> b.

(** One iteration of the loop of [removeDuplicates] on the entry itself. *)
Definition dedup_step (e : entry) (st : dedup) : step dedup error :=
  removeDuplicates_body [e_sig e] [e_msg e] [e_key e] 0 st.

(** The first entry of [b] that carries the message [m]. *)
Fixpoint first_seen (m : bytes) (b : list entry) : option entry :=
  match b with
  | [] => None
  | e :: b' => if bool_decide (e_msg e = m) then Some e else first_seen m b'
  end.

(** Two entries for one message of which exactly one of public key and
    signature agrees. *)
Definition conflicting (e t : entry) : bool :=
  bool_decide (e_msg e = e_msg t)
  && xorb (PublicKey_Equals (e_key e) (e_key t)) (bytes_Equal (e_sig e) (e_sig t)).

(** Public key and signature both agree. *)
Definition duplicate (e t : entry) : bool :=
  bool_decide (e_msg e = e_msg t)
  && PublicKey_Equals (e_key e) (e_key t) && bytes_Equal (e_sig e) (e_sig t).

(** What the locals of [removeDuplicates] record about the entries [pre]
    scanned so far: the map sends a message to the slot that holds the
    first entry for it, and to nothing when the message has not occurred. *)
Record dedup_inv (pre : list entry) (st : dedup) : Prop := {
  inv_len_keys : length (newPubKeys st) = length (newSigs st);
  inv_len_msgs : length (newMsgs st) = length (newSigs st);
  inv_slot : ∀ m indx, rd_msgMap st !! m = Some indx →
    ∃ e, first_seen m pre = Some e
         ∧ newPubKeys st !! indx = Some (e_key e)
         ∧ newSigs st !! indx = Some (e_sig e)
         ∧ newMsgs st !! indx = Some m;
  inv_unseen : ∀ m, rd_msgMap st !! m = None → first_seen m pre = None;
  inv_msgs : ∀ m, m ∈ newMsgs st → m ∈ msgs_of pre
}.

(** A batch with a conflicting pair: a later entry [t] disagrees in exactly
    one of key and signature with the first entry [e] for its message. *)
Definition has_conflict (b : list entry) : Prop :=
  ∃ l1 e l2 t l3,
    b = l1 ++ e :: l2 ++ t :: l3
    ∧ first_seen (e_msg t) (l1 ++ e :: l2) = Some e
    ∧ conflicting e t = true.

(** An entry after decompression: signature point, message, public key. *)
Definition raw_entry : Type := P2Affine * bytes * PublicKey.

Definition r_sig (e : raw_entry) : P2Affine := e.1.1.
Definition r_msg (e : raw_entry) : bytes := e.1.2.
Definition r_key (e : raw_entry) : PublicKey := e.2.

(** One iteration of the loop of [VerifyMultipleSignatures] on the entry
    itself. *)
Definition batch_step (e : raw_entry) (st : batch) : step batch Empty_set :=
  VerifyMultipleSignatures_body [r_sig e] [r_msg e] [r_key e] 0 st.

(** What the loop does to the slot of a message when one more entry for
    that message arrives: nothing when key and signature equal the slot's,
    and otherwise the two aggregations. *)
Definition merge1 (slot x : P1Affine * P2Affine) : res (P1Affine * P2Affine) :=
  if P1Affine_Equals slot.1 x.1 && P2Affine_Equals slot.2 x.2 then Val slot
  else
    a ←! deref (P1Aggregate_Aggregate [slot.1; x.1]);
    b ←! deref (P2Aggregate_Aggregate [Some slot.2; Some x.2]);
    Val (P1Aggregate_ToAffine a, P2Aggregate_ToAffine b).

(** The slot of the message [m] as a fold over the entries, looking only
    at the entries for [m]: the first one opens the slot, every later one
    is merged into it. *)
Definition slot_merge (m : bytes) (acc : res (option (P1Affine * P2Affine)))
    (e : raw_entry) : res (option (P1Affine * P2Affine)) :=
  if bool_decide (r_msg e = m) then
    o ←! acc;
    match o with
    | None => Val (Some (PublicKey_p (r_key e), r_sig e))
    | Some slot => s' ←! merge1 slot (PublicKey_p (r_key e), r_sig e); Val (Some s')
    end
  else acc.

Definition slot_of (m : bytes) (b : list raw_entry)
  : res (option (P1Affine * P2Affine)) :=
  foldl (slot_merge m) (Val None) b.

(** The invariant of the loop of [VerifyMultipleSignatures] after the
    entries [pre]: the three slices of pairing terms go in step, the map
    and the message slice are inverse to each other, the messages are
    those scanned, and each slot holds the merge of the entries for its
    message. *)
Record batch_inv (pre : list raw_entry) (st : batch) : Prop := {
  binv_len_keys : length (mulP1Aff st) = length (rawMsgs st);
  binv_len_sigs : length (mulP2Aff st) = length (rawMsgs st);
  binv_map : ∀ m indx, msgMap st !! m = Some indx ↔ rawMsgs st !! indx = Some m;
  binv_msgs : ∀ m, m ∈ rawMsgs st ↔ m ∈ r_msg <$> pre;
  binv_slot : ∀ m indx, rawMsgs st !! indx = Some m →
    ∃ k s, mulP1Aff st !! indx = Some k ∧ mulP2Aff st !! indx = Some s
           ∧ slot_of m pre = Val (Some (k, s))
}.

(** The library never fails to aggregate two points. *)
Definition aggregation_total : Prop :=
  (∀ a b, is_Some (P1Aggregate_Aggregate [a; b]))
  ∧ (∀ a b, is_Some (P2Aggregate_Aggregate [Some a; Some b])).

(** *** Further methods *)

(** [func (s *Signature) Copy() iface.Signature].  The method copies the
    point behind [s.s]; [*s.s] panics when the pointer is nil. *)
Definition Copy (s : Signature) : res Signature :=
  sign ←! deref (Signature_s s);
  Val (mkSignature (Some sign)).

(** *** What the duplicate filter keeps, entry by entry *)

(** After the entries [pre], the entry [t] is kept when it is the first for
    its message, or differs from the first one in both public key and
    signature. *)
Definition keep (pre : list entry) (t : entry) : bool :=
  match first_seen (e_msg t) pre with
  | None => true
  | Some e =>
      negb (PublicKey_Equals (e_key e) (e_key t))
      && negb (bytes_Equal (e_sig e) (e_sig t))
  end.

Fixpoint kept_from (pre rest : list entry) : list entry :=
  match rest with
  | [] => []
  | t :: rest' =>
      (if keep pre t then [t] else []) ++ kept_from (pre ++ [t]) rest'
  end.

(** The entries of a batch that survive the filter. *)
Definition kept (b : list entry) : list entry := kept_from [] b.

End Signature.

Arguments Signature {B}.
Arguments PublicKey {B}.
Arguments dedup {B}.
Arguments batch {B}.

(** ** A small instance of the library interface

    Both groups are the integers under addition, the hash of a message is
    one more than its length, and a signature [s] is valid for a key [pk]
    and a message [m] when [s = pk * H(m)].  A byte string decodes to the
    value of its first byte; the empty string and a leading [0xff] do not
    decode. *)
Module Toy.

Local Open Scope Z_scope.

Definition hash (msg dst : bytes) : Z := 1 + Z.of_nat (length msg).

Definition uncompress (b : bytes) : option Z :=
  match b with
  | [] => None
  | c :: _ => if bool_decide (c = Byte.xff) then None else Some (Z.of_N (Byte.to_N c))
  end.

Definition batch_uncompress (l : list bytes) : list Z :=
  default [] (mapM uncompress l).

Definition compress (p : option Z) : bytes :=
  match p with
  | None => []
  | Some z => default Byte.x00 (Byte.of_N (Z.to_N (z mod 255))) :: replicate 95 Byte.x00
  end.

Definition sum (l : list Z) : Z := foldr Z.add 0 l.

Definition verify (sig : option Z) (pk : Z) (msg dst : bytes) : bool :=
  match sig with
  | Some s => s =? pk * hash msg dst
  | None => false
  end.

Definition aggregate_verify (sig : option Z) (pks : list Z) (msgs : list bytes)
    (dst : bytes) : bool :=
  match sig with
  | Some s =>
      (length pks =? length msgs)%nat
      && (s =? sum (zip_with (λ pk m, pk * hash m dst) pks msgs))
  | None => false
  end.

(** Draws one coefficient per term and compares the two weighted sums. *)
Fixpoint weighted (rf : Z → Z * Z) (g : Z) (sigs pks : list Z) (msgs : list bytes)
    (dst : bytes) : Z * Z :=
  match sigs, pks, msgs with
  | s :: sigs', pk :: pks', m :: msgs' =>
      let '(r, g') := rf g in
      let '(lhs, rhs) := weighted rf g' sigs' pks' msgs' dst in
      (r * s + lhs, r * (pk * hash m dst) + rhs)
  | _, _, _ => (0, 0)
  end.

Definition multiple_aggregate_verify (sigs pks : list Z) (msgs : list bytes)
    (dst : bytes) (rf : Z → Z * Z) (g : Z) (bits : nat) : bool :=
  match sigs with
  | [] => false
  | _ =>
      (length sigs =? length pks)%nat && (length sigs =? length msgs)%nat
      && (let '(lhs, rhs) := weighted rf g sigs pks msgs dst in lhs =? rhs)
  end.

Definition read (g : Z) (n : nat) : bytes * Z :=
  (replicate n (default Byte.x01 (Byte.of_N (Z.to_N (g mod 255 + 1)))), g + 1).

Definition from_bendian (b : bytes) : Z :=
  foldl (λ acc c, acc * 256 + Z.of_N (Byte.to_N c)) 0 b.

#[export] Instance toy_blst : Blst := {|
  P1Affine := Z;
  P2Affine := Z;
  P1Aggregate := Z;
  P2Aggregate := Z;
  P2 := Z;
  Scalar := Z;
  RandGen := Z;
  P1Affine_Equals := Z.eqb;
  P2Affine_Equals := Z.eqb;
  P2Affine_Uncompress := uncompress;
  P2Affine_BatchUncompress := batch_uncompress;
  P2Affine_Compress := compress;
  P2Affine_Verify := verify;
  P2Affine_AggregateVerify := aggregate_verify;
  P2Affine_MultipleAggregateVerify := multiple_aggregate_verify;
  P1Aggregate_Aggregate := λ l, Some (sum l);
  P1Aggregate_ToAffine := id;
  P2Aggregate_Aggregate := λ l, sum <$> mapM id l;
  P2Aggregate_ToAffine := id;
  HashToG2 := hash;
  P2_ToAffine := id;
  RandGen_Read := read;
  Scalar_FromBEndian := from_bendian
|}.

(** The main-net constant: signatures are 96 bytes. *)
Definition mainnet : BeaconChainConfig := {| BLSSignatureLength := 96 |}.

Definition real : Env :=
  {| featureconfig_Get := {| SkipBLSVerify := false |}; params_BeaconConfig := mainnet |}.

Definition skipping : Env :=
  {| featureconfig_Get := {| SkipBLSVerify := true |}; params_BeaconConfig := mainnet |}.

Definition key (z : Z) : PublicKey := mkPublicKey (z : @P1Affine toy_blst).

(** A message of one byte, whose hash is 2, and one of two bytes, whose
    hash is 3. *)
Definition m1 : bytes := [Byte.x0a].
Definition m2 : bytes := [Byte.x0b; Byte.x0b].

(** Entries for [m1].  The signature of [valid_entry] is valid; those of
    [first_entry] and [second_entry] are not, but their sum is valid for
    the sum of their keys. *)
Definition valid_entry : entry := ([Byte.x02], m1, key 1).
Definition first_entry : entry := ([Byte.x01], m1, key 1).
Definition second_entry : entry := ([Byte.x05], m1, key 2).
Definition third_entry : entry := ([Byte.x06], m1, key 2).
Definition merged_entry : entry := ([Byte.x04], m1, key 2).
Definition half_entry : entry := ([Byte.x02], m1, key 2).

(** A valid entry for [m2], and one whose signature does not decode. *)
Definition other_entry : entry := ([Byte.x06], m2, key 2).
Definition undecodable_entry : entry := ([Byte.xff], m1, key 1).

(** A state of the random generator. *)
Definition gen (z : Z) : @RandGen toy_blst := z.

(** Batches: one with a repeated and a merged entry, one with distinct
    messages, one with a signature that does not decode. *)
Definition mixed_batch : list entry :=
  [other_entry; valid_entry; merged_entry; valid_entry].
Definition distinct_batch : list entry := [valid_entry; other_entry].
Definition bad_batch : list entry := [other_entry; undecodable_entry].

Definition no_signature : Signature := mkSignature None.
Definition signature (z : Z) : Signature := mkSignature (Some (z : @P2Affine toy_blst)).

End Toy.

(** * Properties *)

(** ** Loops over parallel slices *)

Section Loops.
Context {E S R : Type}.

Lemma run_list_app (f : E → S → step S R) l1 l2 st :
  run_list f (l1 ++ l2) st =
  match run_list f l1 st with
  | Next st' => run_list f l2 st'
  | Return r => Return r
  | Crash => Crash
  end.
Proof.
  revert st. induction l1 as [|e l1 IH]; intros st; simpl; [done|].
  destruct (f e st); auto.
Qed.

Lemma run_list_snoc (f : E → S → step S R) l e st :
  run_list f (l ++ [e]) st =
  match run_list f l st with
  | Next st' => f e st'
  | Return r => Return r
  | Crash => Crash
  end.
Proof.
  rewrite run_list_app. destruct (run_list f l st); simpl; auto.
  destruct (f e st0); auto.
Qed.

(** An index loop whose body only reads position [j] of its inputs is the
    loop over the elements. *)
Lemma for_loop_run_list (body : nat → S → step S R) (f : E → S → step S R)
    (es : list E) n from st :
  (∀ j e st, es !! j = Some e → body j st = f e st) →
  from + n ≤ length es →
  for_loop body n from st = run_list f (take n (drop from es)) st.
Proof.
  intros Hbody. revert from st.
  induction n as [|n IH]; intros from st Hlen; simpl; [done|].
  destruct (lookup_lt_is_Some_2 es from) as [e He]; [lia|].
  rewrite (drop_S _ _ _ He). simpl.
  rewrite (Hbody _ _ _ He).
  destruct (f e st); auto. apply IH. lia.
Qed.

Lemma for_loop_all (body : nat → S → step S R) (f : E → S → step S R)
    (es : list E) st :
  (∀ j e st, es !! j = Some e → body j st = f e st) →
  for_loop body (length es) 0 st = run_list f es st.
Proof.
  intros Hbody. rewrite (for_loop_run_list body f es); [|done|simpl; lia].
  by rewrite drop_0, firstn_all.
Qed.

End Loops.

Lemma zip3_lookup {A B C} (a : list A) (b : list B) (c : list C) j x y z :
  zip3 a b c !! j = Some (x, y, z) ↔
  a !! j = Some x ∧ b !! j = Some y ∧ c !! j = Some z.
Proof.
  unfold zip3. rewrite lookup_zip_with_Some. split.
  - intros ([x' y'] & z' & Heq & Hxy & Hz). simplify_eq.
    apply lookup_zip_with_Some in Hxy as (x'' & y'' & Heq & Hx & Hy).
    by simplify_eq.
  - intros (Hx & Hy & Hz). exists (x, y), z. split; [done|]. split; [|done].
    apply lookup_zip_with_Some. by exists x, y.
Qed.

Lemma zip3_length {A B C} (a : list A) (b : list B) (c : list C) :
  length a = length b → length a = length c → length (zip3 a b c) = length a.
Proof. intros Hb Hc. unfold zip3. rewrite !length_zip_with. lia. Qed.

Lemma zip3_fmap {A B C} (l : list (A * B * C)) :
  zip3 ((λ e, e.1.1) <$> l) ((λ e, e.1.2) <$> l) (snd <$> l) = l.
Proof.
  unfold zip3. induction l as [|[[x y] z] l IH]; simpl; [done|]. by f_equal.
Qed.

Lemma index_Some {A} (l : list A) i a : l !! i = Some a → index l i = Val a.
Proof. unfold index. by intros ->. Qed.

(** ** The duplicate filter *)

Section RemoveDuplicates.
Context `{B : Blst}.

Lemma removeDuplicates_body_entry sigs msgs pubKeys j e st :
  zip3 sigs msgs pubKeys !! j = Some e →
  removeDuplicates_body sigs msgs pubKeys j st = dedup_step e st.
Proof.
  destruct e as [[sg m] pk]. intros (Hs & Hm & Hp)%zip3_lookup.
  unfold dedup_step, removeDuplicates_body, e_sig, e_msg, e_key. simpl.
  rewrite (index_Some _ _ _ Hs), (index_Some _ _ _ Hm), (index_Some _ _ _ Hp).
  reflexivity.
Qed.

(** *** The first entry for a message *)

Lemma first_seen_app m (l1 l2 : list entry) :
  first_seen m (l1 ++ l2) =
  match first_seen m l1 with
  | Some e => Some e
  | None => first_seen m l2
  end.
Proof.
  induction l1 as [|e l1 IH]; simpl; [done|]. by case_bool_decide.
Qed.

Lemma first_seen_None m (l : list entry) :
  first_seen m l = None ↔ m ∉ msgs_of l.
Proof.
  unfold msgs_of. induction l as [|e l IH]; simpl.
  - split; [|done]. intros _ H. by apply elem_of_nil in H.
  - rewrite not_elem_of_cons. case_bool_decide as Hm.
    + split; [done|]. intros [Hne _]. congruence.
    + rewrite IH. split; [|by intros [_ ?]]. intros H. split; [congruence|done].
Qed.

Lemma first_seen_msg m (l : list entry) e :
  first_seen m l = Some e → e_msg e = m.
Proof.
  induction l as [|x l IH]; simpl; [done|].
  case_bool_decide; [|done]. by intros [= ->].
Qed.

Lemma first_seen_split m (l : list entry) e :
  first_seen m l = Some e →
  ∃ l1 l2, l = l1 ++ e :: l2 ∧ e_msg e = m ∧ first_seen m l1 = None.
Proof.
  induction l as [|x l IH]; simpl; [done|].
  case_bool_decide as Hx.
  - intros [= <-]. by exists [], l.
  - intros (l1 & l2 & -> & Hm & Hnone)%IH.
    exists (x :: l1), l2. simpl. by rewrite bool_decide_eq_false_2.
Qed.

Lemma first_seen_middle m (l1 l2 : list entry) e :
  first_seen m l1 = None → e_msg e = m → first_seen m (l1 ++ e :: l2) = Some e.
Proof.
  intros Hnone Hm. rewrite first_seen_app, Hnone. simpl.
  by rewrite bool_decide_eq_true_2.
Qed.

(** *** One iteration *)

Lemma dedup_step_new e st :
  rd_msgMap st !! e_msg e = None →
  dedup_step e st =
  Next (mkDedup (newPubKeys st ++ [e_key e]) (newSigs st ++ [e_sig e])
                (newMsgs st ++ [e_msg e])
                (<[e_msg e := length (newPubKeys st)]> (rd_msgMap st))).
Proof.
  intros Hm. unfold dedup_step, removeDuplicates_body. simpl.
  by rewrite Hm.
Qed.

Lemma dedup_step_seen e st indx k sg :
  rd_msgMap st !! e_msg e = Some indx →
  newPubKeys st !! indx = Some k →
  newSigs st !! indx = Some sg →
  dedup_step e st =
  if xorb (PublicKey_Equals k (e_key e)) (bytes_Equal sg (e_sig e))
  then Return ErrInvalidPair
  else if PublicKey_Equals k (e_key e) && bytes_Equal sg (e_sig e) then Next st
  else Next (dedup_append (e_key e) (e_sig e) (e_msg e) st).
Proof.
  intros Hm Hk Hs. unfold dedup_step, removeDuplicates_body. simpl.
  rewrite Hm, (index_Some _ _ _ Hk), (index_Some _ _ _ Hs). simpl.
  by destruct (PublicKey_Equals k (e_key e)), (bytes_Equal sg (e_sig e)).
Qed.

(** *** The invariant of the loop *)

Lemma dedup_inv_init : dedup_inv [] dedup_init.
Proof.
  split; simpl; try done.
Qed.

Lemma dedup_inv_fresh pre st t :
  dedup_inv pre st →
  rd_msgMap st !! e_msg t = None →
  dedup_inv (pre ++ [t])
    (mkDedup (newPubKeys st ++ [e_key t]) (newSigs st ++ [e_sig t])
             (newMsgs st ++ [e_msg t])
             (<[e_msg t := length (newPubKeys st)]> (rd_msgMap st))).
Proof.
  intros [Hk Hm Hslot Hun Hin] Hnone. split; simpl.
  - rewrite !length_app. simpl. lia.
  - rewrite !length_app. simpl. lia.
  - intros m indx. rewrite lookup_insert. case_decide as Heq.
    + intros [= <-]. subst m. exists t.
      split; [by apply first_seen_middle; [apply Hun|]|].
      split; [by apply list_lookup_middle|].
      split; by apply list_lookup_middle; lia.
    + intros (e & Hf & H1 & H2 & H3)%Hslot. exists e.
      rewrite first_seen_app, Hf.
      split; [done|]. split; [|split]; by apply lookup_app_l_Some.
  - intros m. rewrite lookup_insert. case_decide as Heq; [done|].
    intros Hf%Hun. rewrite first_seen_app, Hf. simpl.
    by rewrite bool_decide_eq_false_2.
  - intros m. unfold msgs_of. rewrite fmap_app, !elem_of_app. simpl.
    intros [H%Hin|H]; [by left|by right].
Qed.

Lemma dedup_inv_skip pre st t indx :
  dedup_inv pre st →
  rd_msgMap st !! e_msg t = Some indx →
  dedup_inv (pre ++ [t]) st.
Proof.
  intros [Hk Hm Hslot Hun Hin] Hsome. split; try done.
  - intros m i (e & Hf & H)%Hslot. exists e. by rewrite first_seen_app, Hf.
  - intros m Hnone. rewrite first_seen_app, (Hun _ Hnone). simpl.
    rewrite bool_decide_eq_false_2; [done|]. intros <-. congruence.
  - intros m H%Hin. unfold msgs_of in *. rewrite fmap_app, elem_of_app. by left.
Qed.

Lemma dedup_inv_append pre st t indx :
  dedup_inv pre st →
  rd_msgMap st !! e_msg t = Some indx →
  dedup_inv (pre ++ [t]) (dedup_append (e_key t) (e_sig t) (e_msg t) st).
Proof.
  intros [Hk Hm Hslot Hun Hin] Hsome. split; simpl.
  - rewrite !length_app. simpl. lia.
  - rewrite !length_app. simpl. lia.
  - intros m i (e & Hf & H1 & H2 & H3)%Hslot. exists e.
    rewrite first_seen_app, Hf.
    split; [done|]. split; [|split]; by apply lookup_app_l_Some.
  - intros m Hnone. rewrite first_seen_app, (Hun _ Hnone). simpl.
    rewrite bool_decide_eq_false_2; [done|]. intros <-. congruence.
  - intros m. unfold msgs_of. rewrite fmap_app, !elem_of_app. simpl.
    intros [H%Hin|H]; [by left|by right].
Qed.

(** The scan of a batch either ends with the invariant, or returns the one
    error of the function at a conflicting pair; it never panics. *)
Lemma dedup_run (pre : list entry) :
  (∃ st, run_list dedup_step pre dedup_init = Next st ∧ dedup_inv pre st)
  ∨ (run_list dedup_step pre dedup_init = Return ErrInvalidPair
     ∧ has_conflict pre).
Proof.
  induction pre as [|t pre IH] using rev_ind.
  - left. exists dedup_init. split; [done|apply dedup_inv_init].
  - rewrite run_list_snoc.
    destruct IH as [(st & -> & Hinv)|[-> (l1 & e & l2 & t0 & l3 & -> & Hf & Hc)]].
    2:{ right. split; [done|]. exists l1, e, l2, t0, (l3 ++ [t]).
        split; [|done]. by simplify_list_eq. }
    destruct (rd_msgMap st !! e_msg t) as [indx|] eqn:Hm.
    + destruct (inv_slot _ _ Hinv _ _ Hm) as (e & Hf & Hk & Hs & _).
      rewrite (dedup_step_seen _ _ _ _ _ Hm Hk Hs).
      destruct (xorb _ _) eqn:Hx.
      * right. split; [done|].
        destruct (first_seen_split _ _ _ Hf) as (l1 & l2 & -> & Hem & Hnone).
        exists l1, e, l2, t, []. rewrite <- app_assoc. simpl.
        split; [done|]. split; [done|].
        unfold conflicting. by rewrite bool_decide_eq_true_2, Hx.
      * left. destruct (_ && _).
        -- exists st. split; [done|]. by eapply dedup_inv_skip.
        -- eexists. split; [done|]. by eapply dedup_inv_append.
    + left. rewrite (dedup_step_new _ _ Hm). eexists. split; [done|].
      by apply dedup_inv_fresh.
Qed.

(** *** The function on a whole batch *)

Lemma removeDuplicates_run sigs msgs pubKeys :
  length sigs = length msgs → length sigs = length pubKeys →
  removeDuplicates sigs msgs pubKeys =
  match run_list dedup_step (zip3 sigs msgs pubKeys) dedup_init with
  | Next st => Val (newSigs st, newMsgs st, newPubKeys st, None)
  | Return err => Val ([], [], [], Some err)
  | Crash => Panic
  end.
Proof.
  intros Hm Hp. unfold removeDuplicates. cbv zeta.
  rewrite <- (zip3_length sigs msgs pubKeys Hm Hp).
  rewrite (@for_loop_all (bytes * bytes * PublicKey) _ _ _ dedup_step); [done|].
  intros j e st. apply removeDuplicates_body_entry.
Qed.

Lemma zip3_batch (b : list entry) : zip3 (sigs_of b) (msgs_of b) (keys_of b) = b.
Proof. apply zip3_fmap. Qed.

Lemma batch_lengths (b : list entry) :
  length (sigs_of b) = length (msgs_of b) ∧ length (sigs_of b) = length (keys_of b).
Proof. unfold sigs_of, msgs_of, keys_of. by rewrite !length_fmap. Qed.

Lemma removeDuplicates_batch (b : list entry) :
  removeDuplicates (sigs_of b) (msgs_of b) (keys_of b) =
  match run_list dedup_step b dedup_init with
  | Next st => Val (newSigs st, newMsgs st, newPubKeys st, None)
  | Return err => Val ([], [], [], Some err)
  | Crash => Panic
  end.
Proof.
  destruct (batch_lengths b) as [Hm Hp].
  by rewrite (removeDuplicates_run _ _ _ Hm Hp), zip3_batch.
Qed.

(** Once the scan has passed the first entry [e] for a message, a later
    entry [t] for that message is compared with [e]. *)
Lemma dedup_step_first_seen pre st e t :
  dedup_inv pre st →
  first_seen (e_msg t) pre = Some e →
  dedup_step t st =
  if xorb (PublicKey_Equals (e_key e) (e_key t)) (bytes_Equal (e_sig e) (e_sig t))
  then Return ErrInvalidPair
  else if PublicKey_Equals (e_key e) (e_key t) && bytes_Equal (e_sig e) (e_sig t)
       then Next st
       else Next (dedup_append (e_key t) (e_sig t) (e_msg t) st).
Proof.
  intros Hinv Hf.
  destruct (rd_msgMap st !! e_msg t) as [indx|] eqn:Hm.
  - destruct (inv_slot _ _ Hinv _ _ Hm) as (e' & Hf' & Hk & Hs & _).
    assert (e' = e) as -> by congruence.
    by apply dedup_step_seen with indx.
  - apply (inv_unseen _ _ Hinv) in Hm. congruence.
Qed.

Lemma run_conflicting l1 e l2 t l3 :
  e_msg e ∉ msgs_of l1 →
  conflicting e t = true →
  run_list dedup_step (l1 ++ e :: l2 ++ t :: l3) dedup_init = Return ErrInvalidPair.
Proof.
  intros Hfirst [Hmsg Hx]%andb_prop. apply bool_decide_eq_true_1 in Hmsg.
  replace (l1 ++ e :: l2 ++ t :: l3) with ((l1 ++ e :: l2) ++ t :: l3)
    by (by rewrite <- app_assoc).
  rewrite run_list_app.
  destruct (dedup_run (l1 ++ e :: l2)) as [(st & -> & Hinv)|[-> _]]; [|done].
  simpl. rewrite (dedup_step_first_seen _ _ e _ Hinv), Hx; [done|].
  rewrite <- Hmsg. apply first_seen_middle; [by apply first_seen_None|done].
Qed.

Lemma run_duplicate l1 e l2 t l3 :
  e_msg e ∉ msgs_of l1 →
  duplicate e t = true →
  run_list dedup_step (l1 ++ e :: l2 ++ t :: l3) dedup_init =
  run_list dedup_step (l1 ++ e :: l2 ++ l3) dedup_init.
Proof.
  intros Hfirst [[Hmsg Hk]%andb_prop Hs]%andb_prop.
  apply bool_decide_eq_true_1 in Hmsg.
  replace (l1 ++ e :: l2 ++ t :: l3) with ((l1 ++ e :: l2) ++ t :: l3)
    by (by rewrite <- app_assoc).
  replace (l1 ++ e :: l2 ++ l3) with ((l1 ++ e :: l2) ++ l3)
    by (by rewrite <- app_assoc).
  rewrite (run_list_app _ (l1 ++ e :: l2) (t :: l3)).
  rewrite (run_list_app _ (l1 ++ e :: l2) l3).
  destruct (dedup_run (l1 ++ e :: l2)) as [(st & -> & Hinv)|[-> _]]; [|done].
  simpl. rewrite (dedup_step_first_seen _ _ e _ Hinv), Hk, Hs; [done|].
  rewrite <- Hmsg. apply first_seen_middle; [by apply first_seen_None|done].
Qed.

(** Past its three guards, [VerifyMultipleSignatures] is the duplicate
    filter followed by the pairing check. *)
Lemma VerifyMultipleSignatures_checked env randGen sigs msgs pubKeys :
  SkipBLSVerify (featureconfig_Get env) = false →
  sigs ≠ [] →
  length sigs = length pubKeys → length sigs = length msgs →
  VerifyMultipleSignatures env randGen sigs msgs pubKeys =
  r ←! removeDuplicates sigs msgs pubKeys;
  let '(sigs, msgs, pubKeys, err) := r in
  match err with
  | Some e => Val (false, Some e)
  | None =>
      let rawSigs := P2Affine_BatchUncompress sigs in
      match for_loop (VerifyMultipleSignatures_body rawSigs msgs pubKeys)
                     (length rawSigs) 0 batch_init with
      | Next st =>
          Val (P2Affine_MultipleAggregateVerify
                 (mulP2Aff st) (mulP1Aff st) (rawMsgs st) dst
                 randFunc randGen randBitsEntropy, None)
      | Return r => match r with end
      | Crash => Panic
      end
  end.
Proof.
  intros Hflag Hne Hp Hm. unfold VerifyMultipleSignatures. rewrite Hflag.
  destruct sigs as [|sg sigs]; [done|].
  destruct pubKeys as [|pk pubKeys]; [done|].
  rewrite <- Hp, <- Hm, Nat.eqb_refl. reflexivity.
Qed.

End RemoveDuplicates.

(** ** The loop of the batch verifier *)

Section Coalescing.
Context `{B : Blst}.

Lemma VerifyMultipleSignatures_body_entry rawSigs msgs pubKeys j e st :
  zip3 rawSigs msgs pubKeys !! j = Some e →
  VerifyMultipleSignatures_body rawSigs msgs pubKeys j st = batch_step e st.
Proof.
  destruct e as [[sg m] pk]. intros (Hs & Hm & Hp)%zip3_lookup.
  unfold batch_step, VerifyMultipleSignatures_body, r_sig, r_msg, r_key. simpl.
  rewrite (index_Some _ _ _ Hs), (index_Some _ _ _ Hm), (index_Some _ _ _ Hp).
  reflexivity.
Qed.

Lemma batch_step_new e st :
  msgMap st !! r_msg e = None →
  batch_step e st =
  Next (mkBatch (mulP1Aff st ++ [PublicKey_p (r_key e)]) (rawMsgs st ++ [r_msg e])
                (mulP2Aff st ++ [r_sig e])
                (<[r_msg e := length (mulP1Aff st)]> (msgMap st))
                (repeatedSigs st)).
Proof.
  intros Hm. unfold batch_step, VerifyMultipleSignatures_body. simpl.
  by rewrite Hm.
Qed.

Lemma batch_step_seen e st indx k sg :
  msgMap st !! r_msg e = Some indx →
  mulP1Aff st !! indx = Some k →
  mulP2Aff st !! indx = Some sg →
  batch_step e st =
  match merge1 (k, sg) (PublicKey_p (r_key e), r_sig e) with
  | Val (k', sg') =>
      Next (mkBatch (<[indx := k']> (mulP1Aff st)) (rawMsgs st)
                    (<[indx := sg']> (mulP2Aff st)) (msgMap st)
                    (Datatypes.S (repeatedSigs st)))
  | Panic => Crash
  end.
Proof.
  intros Hm Hk Hs. unfold batch_step, VerifyMultipleSignatures_body, merge1. simpl.
  rewrite Hm, (index_Some _ _ _ Hk), (index_Some _ _ _ Hs). simpl.
  destruct (P1Affine_Equals k _); simpl.
  - destruct (P2Affine_Equals sg _); simpl.
    + by rewrite !list_insert_id.
    + destruct (P1Aggregate_Aggregate _); simpl; [|done].
      by destruct (P2Aggregate_Aggregate _).
  - destruct (P1Aggregate_Aggregate _); simpl; [|done].
    by destruct (P2Aggregate_Aggregate _).
Qed.

(** *** The slot of a message as a fold *)

Lemma slot_of_snoc m (pre : list raw_entry) e :
  slot_of m (pre ++ [e]) = slot_merge m (slot_of m pre) e.
Proof. unfold slot_of. by rewrite foldl_app. Qed.

Lemma slot_of_other m (pre : list raw_entry) e :
  r_msg e ≠ m → slot_of m (pre ++ [e]) = slot_of m pre.
Proof.
  intros Hne. rewrite slot_of_snoc. unfold slot_merge.
  by rewrite bool_decide_eq_false_2.
Qed.

Lemma slot_of_absent m (pre : list raw_entry) :
  m ∉ r_msg <$> pre → slot_of m pre = Val None.
Proof.
  induction pre as [|e pre IH] using rev_ind; [done|].
  rewrite fmap_app, not_elem_of_app. simpl. intros [Hpre He].
  rewrite slot_of_other; [by apply IH|].
  intros Heq. apply He. rewrite Heq. apply list_elem_of_singleton. done.
Qed.

(** *** The invariant *)

Lemma batch_inv_init : batch_inv [] batch_init.
Proof.
  split; simpl; try done.
Qed.

Lemma batch_inv_seen pre st e indx k' sg' :
  batch_inv pre st →
  msgMap st !! r_msg e = Some indx →
  (∀ k sg, mulP1Aff st !! indx = Some k → mulP2Aff st !! indx = Some sg →
           merge1 (k, sg) (PublicKey_p (r_key e), r_sig e) = Val (k', sg')) →
  batch_inv (pre ++ [e])
    (mkBatch (<[indx := k']> (mulP1Aff st)) (rawMsgs st)
             (<[indx := sg']> (mulP2Aff st)) (msgMap st)
             (Datatypes.S (repeatedSigs st))).
Proof.
  intros [Hk Hs Hmap Hmsgs Hslot] Hm Hmerge.
  pose proof (proj1 (Hmap _ _) Hm) as Hraw.
  split; simpl.
  - by rewrite length_insert.
  - by rewrite length_insert.
  - done.
  - intros m. rewrite fmap_app, elem_of_app, Hmsgs. simpl.
    split; [by left|]. intros [H|H]; [done|].
    apply list_elem_of_singleton in H as ->.
    apply Hmsgs. by eapply list_elem_of_lookup_2.
  - intros m i Hi. destruct (decide (i = indx)) as [->|Hne].
    + assert (m = r_msg e) as -> by congruence.
      destruct (Hslot _ _ Hraw) as (k & sg & Hlk & Hls & Hso).
      exists k', sg'.
      split; [apply list_lookup_insert_eq; by eapply lookup_lt_Some|].
      split; [apply list_lookup_insert_eq; by eapply lookup_lt_Some|].
      rewrite slot_of_snoc, Hso. unfold slot_merge.
      rewrite bool_decide_eq_true_2 by done. simpl.
      by rewrite (Hmerge _ _ Hlk Hls).
    + assert (r_msg e ≠ m) as Hm'.
      { intros Heq. apply Hne. apply Hmap in Hi. congruence. }
      destruct (Hslot _ _ Hi) as (k & sg & Hlk & Hls & Hso).
      exists k, sg. rewrite !list_lookup_insert_ne by done.
      by rewrite slot_of_other.
Qed.

Lemma batch_inv_fresh pre st e :
  batch_inv pre st →
  msgMap st !! r_msg e = None →
  batch_inv (pre ++ [e])
    (mkBatch (mulP1Aff st ++ [PublicKey_p (r_key e)]) (rawMsgs st ++ [r_msg e])
             (mulP2Aff st ++ [r_sig e])
             (<[r_msg e := length (mulP1Aff st)]> (msgMap st))
             (repeatedSigs st)).
Proof.
  intros [Hk Hs Hmap Hmsgs Hslot] Hnone.
  assert (∀ i, rawMsgs st !! i ≠ Some (r_msg e)) as Hfresh.
  { intros i Hi. apply Hmap in Hi. congruence. }
  split; simpl.
  - rewrite !length_app. simpl. lia.
  - rewrite !length_app. simpl. lia.
  - intros m i. rewrite lookup_insert, lookup_app_Some.
    case_decide as Heq.
    + subst m. split.
      * intros [= <-]. right. split; [lia|]. by rewrite Hk, Nat.sub_diag.
      * intros [Hi|[Hle Hi]]; [by apply Hfresh in Hi|].
        apply list_lookup_singleton_Some in Hi as [Hi _]. f_equal. lia.
    + rewrite Hmap. split; [by left|].
      intros [Hi|[Hle Hi]]; [done|].
      apply list_lookup_singleton_Some in Hi as [_ Hi]. congruence.
  - intros m. rewrite fmap_app, !elem_of_app, Hmsgs. done.
  - intros m i [Hi|[Hle Hi]]%lookup_app_Some.
    + destruct (Hslot _ _ Hi) as (k & sg & Hlk & Hls & Hso).
      exists k, sg. split; [by apply lookup_app_l_Some|].
      split; [by apply lookup_app_l_Some|].
      rewrite slot_of_other; [done|]. intros <-. by apply Hfresh in Hi.
    + apply list_lookup_singleton_Some in Hi as [Hi <-].
      assert (i = length (rawMsgs st)) as -> by lia.
      exists (PublicKey_p (r_key e)), (r_sig e).
      split; [by apply list_lookup_middle|].
      split; [by apply list_lookup_middle|].
      rewrite slot_of_snoc, slot_of_absent.
      * unfold slot_merge. by rewrite bool_decide_eq_true_2.
      * rewrite <- Hmsgs. intros (j & Hj)%list_elem_of_lookup_1.
        by apply Hfresh in Hj.
Qed.

Lemma batch_inv_step pre st e st' :
  batch_inv pre st → batch_step e st = Next st' → batch_inv (pre ++ [e]) st'.
Proof.
  intros Hinv. destruct (msgMap st !! r_msg e) as [indx|] eqn:Hm.
  - pose proof (proj1 (binv_map _ _ Hinv _ _) Hm) as Hraw.
    destruct (binv_slot _ _ Hinv _ _ Hraw) as (k & sg & Hlk & Hls & _).
    rewrite (batch_step_seen _ _ _ _ _ Hm Hlk Hls).
    destruct (merge1 _ _) as [[k' sg']|] eqn:Hmerge; [|done].
    intros [= <-]. apply batch_inv_seen; [done..|].
    intros k0 sg0 ? ?. by simplify_eq.
  - rewrite (batch_step_new _ _ Hm). intros [= <-]. by apply batch_inv_fresh.
Qed.

Lemma batch_run_inv (pre : list raw_entry) st :
  run_list batch_step pre batch_init = Next st → batch_inv pre st.
Proof.
  revert st. induction pre as [|e pre IH] using rev_ind; intros st.
  - intros [= <-]. apply batch_inv_init.
  - rewrite run_list_snoc.
    destruct (run_list batch_step pre batch_init) as [st0| |]; [|done..].
    intros Hstep. eapply batch_inv_step; [|done]. by apply IH.
Qed.

Lemma merge1_total slot x :
  aggregation_total → ∃ r, merge1 slot x = Val r.
Proof.
  intros [H1 H2]. unfold merge1. destruct (_ && _); [by eexists|].
  destruct (H1 slot.1 x.1) as [a ->]. destruct (H2 slot.2 x.2) as [b ->].
  by eexists.
Qed.

(** With a library that aggregates any two points, the loop runs to its
    end. *)
Lemma batch_run_total (pre : list raw_entry) :
  aggregation_total → ∃ st, run_list batch_step pre batch_init = Next st.
Proof.
  intros Htot. induction pre as [|e pre IH] using rev_ind; [by eexists|].
  destruct IH as [st Hrun]. rewrite run_list_snoc, Hrun.
  pose proof (batch_run_inv _ _ Hrun) as Hinv.
  destruct (msgMap st !! r_msg e) as [indx|] eqn:Hm.
  - pose proof (proj1 (binv_map _ _ Hinv _ _) Hm) as Hraw.
    destruct (binv_slot _ _ Hinv _ _ Hraw) as (k & sg & Hlk & Hls & _).
    rewrite (batch_step_seen _ _ _ _ _ Hm Hlk Hls).
    destruct (merge1_total (k, sg) (PublicKey_p (r_key e), r_sig e) Htot)
      as [[k' sg'] ->].
    by eexists.
  - rewrite (batch_step_new _ _ Hm). by eexists.
Qed.

Lemma batch_inv_NoDup pre st : batch_inv pre st → NoDup (rawMsgs st).
Proof.
  intros Hinv. apply NoDup_alt. intros i j m Hi Hj.
  apply (binv_map _ _ Hinv) in Hi, Hj. congruence.
Qed.

End Coalescing.

(** ** The entry points *)

Section EntryPoints.
Context `{B : Blst}.

Lemma zip3_msgs {A C} (a : list A) (b : list bytes) (c : list C) :
  length a = length b → length a = length c →
  (λ e : A * bytes * C, e.1.2) <$> zip3 a b c = b.
Proof.
  intros Hb Hc. unfold zip3.
  change (λ e : A * bytes * C, e.1.2) with (snd ∘ fst : A * bytes * C → bytes).
  rewrite list_fmap_compose, fst_zip, snd_zip; [done|lia|].
  rewrite length_zip_with. lia.
Qed.

Lemma nonempty_lengths {A C} (a : list A) (c : list C) :
  a ≠ [] → c ≠ [] → (length a =? 0) || (length c =? 0) = false.
Proof. by destruct a, c. Qed.

Lemma lengths_differ (a p m : nat) :
  negb (a =? p) || negb (a =? m) = false ↔ a = p ∧ a = m.
Proof.
  rewrite orb_false_iff, !negb_false_iff, !Nat.eqb_eq. done.
Qed.

Lemma msgs_of_zip3 sigs msgs (pubKeys : list PublicKey) :
  length sigs = length msgs → length sigs = length pubKeys →
  msgs_of (zip3 sigs msgs pubKeys) = msgs.
Proof. apply zip3_msgs. Qed.

Lemma r_msg_zip3 (rawSigs : list P2Affine) msgs (pubKeys : list PublicKey) :
  length rawSigs = length msgs → length rawSigs = length pubKeys →
  r_msg <$> zip3 rawSigs msgs pubKeys = msgs.
Proof. apply zip3_msgs. Qed.

Lemma dedup_inv_msgs pre st m :
  dedup_inv pre st → m ∈ newMsgs st ↔ m ∈ msgs_of pre.
Proof.
  intros Hinv. split; [apply (inv_msgs _ _ Hinv)|].
  intros Hin. destruct (rd_msgMap st !! m) as [indx|] eqn:Hm.
  - destruct (inv_slot _ _ Hinv _ _ Hm) as (e & _ & _ & _ & Hl).
    by eapply list_elem_of_lookup_2.
  - apply (inv_unseen _ _ Hinv), first_seen_None in Hm. done.
Qed.

(** What a successful run of the duplicate filter returns: three slices of
    one length that carry the messages of the input. *)
Lemma removeDuplicates_ok sigs msgs pubKeys sigs' msgs' pubKeys' :
  length sigs = length msgs → length sigs = length pubKeys →
  removeDuplicates sigs msgs pubKeys = Val (sigs', msgs', pubKeys', None) →
  length msgs' = length sigs' ∧ length pubKeys' = length sigs'
  ∧ ∀ m, m ∈ msgs' ↔ m ∈ msgs.
Proof.
  intros Hm Hp. rewrite (removeDuplicates_run _ _ _ Hm Hp).
  destruct (dedup_run (zip3 sigs msgs pubKeys)) as [(st & -> & Hinv)|[-> _]]; [|done].
  intros [= <- <- <-].
  split; [apply (inv_len_msgs _ _ Hinv)|]. split; [apply (inv_len_keys _ _ Hinv)|].
  intros m. by rewrite (dedup_inv_msgs _ _ m Hinv), (msgs_of_zip3 _ _ _ Hm Hp).
Qed.

(** C1 (amended).  With SkipBLSVerify unset, [VerifyMultipleSignatures]
    returns (false, no error) when the signature or the public-key slice is
    empty; when both are non-empty and the three lengths are not all equal
    it returns false with the differing-lengths error; and whenever it
    returns an error at all the boolean is false and the error is either
    that one, on slices of differing lengths, or the invalid-pair error, on
    a batch that holds a conflicting pair of entries for one message.  The
    outcome of the pairing check never produces an error. *)
Theorem VerifyMultipleSignatures_structural_errors
    env randGen (sigs msgs : list bytes) (pubKeys : list PublicKey) :
  SkipBLSVerify (featureconfig_Get env) = false →
  ((sigs = [] ∨ pubKeys = []) →
     VerifyMultipleSignatures env randGen sigs msgs pubKeys = Val (false, None))
  ∧ (sigs ≠ [] → pubKeys ≠ [] →
     ¬ (length sigs = length pubKeys ∧ length sigs = length msgs) →
     VerifyMultipleSignatures env randGen sigs msgs pubKeys =
     Val (false, Some (ErrDifferingLengths (length sigs) (length pubKeys) (length msgs))))
  ∧ (∀ b err,
     VerifyMultipleSignatures env randGen sigs msgs pubKeys = Val (b, Some err) →
     b = false
     ∧ ((err = ErrDifferingLengths (length sigs) (length pubKeys) (length msgs)
         ∧ ¬ (length sigs = length pubKeys ∧ length sigs = length msgs))
        ∨ (err = ErrInvalidPair ∧ has_conflict (zip3 sigs msgs pubKeys)))).
Proof.
  intros Hflag. split; [|split].
  - unfold VerifyMultipleSignatures. rewrite Hflag.
    intros [-> | ->]; [done|]. simpl. by rewrite orb_true_r.
  - intros Hs Hp Hlen. unfold VerifyMultipleSignatures.
    rewrite Hflag, (nonempty_lengths _ _ Hs Hp). cbv zeta.
    destruct (negb _ || negb _) eqn:Hcmp; [done|].
    by apply lengths_differ in Hcmp.
  - intros b err.
    destruct (decide (sigs = [] ∨ pubKeys = [])) as [Hempty|Hne].
    { unfold VerifyMultipleSignatures. rewrite Hflag.
      destruct Hempty as [-> | ->]; [done|]. simpl. by rewrite orb_true_r. }
    assert (sigs ≠ [] ∧ pubKeys ≠ []) as [Hs Hp] by (split; intros ->; naive_solver).
    destruct (decide (length sigs = length pubKeys ∧ length sigs = length msgs))
      as [[Hlp Hlm]|Hlen].
    + rewrite (VerifyMultipleSignatures_checked _ _ _ _ _ Hflag Hs Hlp Hlm).
      rewrite (removeDuplicates_run _ _ _ Hlm Hlp).
      destruct (dedup_run (zip3 sigs msgs pubKeys))
        as [(st & -> & Hinv)|[-> Hconf]]; simpl.
      * destruct (for_loop _ _ _ _) as [st'|[]|]; done.
      * intros [= <- <-]. split; [done|]. by right.
    + unfold VerifyMultipleSignatures.
      rewrite Hflag, (nonempty_lengths _ _ Hs Hp). cbv zeta.
      destruct (negb _ || negb _) eqn:Hcmp.
      * intros [= <- <-]. split; [done|]. by left.
      * by apply lengths_differ in Hcmp.
Qed.

(** C2 (amended).  With SkipBLSVerify unset, a batch in which a later entry
    [t] agrees in exactly one of public key and signature with [e], the
    first entry for its message, is rejected as a whole: the duplicate
    filter returns no slices and the invalid-pair error, and
    [VerifyMultipleSignatures] returns false with that error. *)
Theorem conflicting_duplicate_rejected env randGen (l1 l2 l3 : list entry) e t :
  SkipBLSVerify (featureconfig_Get env) = false →
  e_msg e ∉ msgs_of l1 →
  conflicting e t = true →
  let b := l1 ++ e :: l2 ++ t :: l3 in
  removeDuplicates (sigs_of b) (msgs_of b) (keys_of b) = Val ([], [], [], Some ErrInvalidPair)
  ∧ VerifyMultipleSignatures env randGen (sigs_of b) (msgs_of b) (keys_of b)
    = Val (false, Some ErrInvalidPair).
Proof.
  intros Hflag Hfirst Hconf b.
  assert (removeDuplicates (sigs_of b) (msgs_of b) (keys_of b)
          = Val ([], [], [], Some ErrInvalidPair)) as Hrd.
  { rewrite removeDuplicates_batch. unfold b. by rewrite run_conflicting. }
  split; [done|].
  destruct (batch_lengths b) as [Hm Hp].
  rewrite (VerifyMultipleSignatures_checked _ _ _ _ _ Hflag); [|by destruct l1|done..].
  by rewrite Hrd.
Qed.

(** C5 (amended).  Submitting once more an entry [t] whose public key and
    signature both equal those of [e], the first entry for its message,
    changes nothing: the duplicate filter returns the same slices and
    [VerifyMultipleSignatures] the same boolean and error as on the batch
    without [t]. *)
Theorem repeated_entry_dropped env randGen (l1 l2 l3 : list entry) e t :
  e_msg e ∉ msgs_of l1 →
  duplicate e t = true →
  let b := l1 ++ e :: l2 ++ t :: l3 in
  let b' := l1 ++ e :: l2 ++ l3 in
  removeDuplicates (sigs_of b) (msgs_of b) (keys_of b)
  = removeDuplicates (sigs_of b') (msgs_of b') (keys_of b')
  ∧ VerifyMultipleSignatures env randGen (sigs_of b) (msgs_of b) (keys_of b)
    = VerifyMultipleSignatures env randGen (sigs_of b') (msgs_of b') (keys_of b').
Proof.
  intros Hfirst Hdup b b'.
  assert (removeDuplicates (sigs_of b) (msgs_of b) (keys_of b)
          = removeDuplicates (sigs_of b') (msgs_of b') (keys_of b')) as Hrd.
  { rewrite !removeDuplicates_batch. unfold b, b'. by rewrite run_duplicate. }
  split; [done|].
  destruct (SkipBLSVerify (featureconfig_Get env)) eqn:Hflag.
  { unfold VerifyMultipleSignatures. by rewrite Hflag. }
  destruct (batch_lengths b) as [Hm Hp]. destruct (batch_lengths b') as [Hm' Hp'].
  rewrite (VerifyMultipleSignatures_checked _ _ (sigs_of b) _ _ Hflag);
    [|by destruct l1|done..].
  rewrite (VerifyMultipleSignatures_checked _ _ (sigs_of b') _ _ Hflag);
    [|by destruct l1|done..].
  by rewrite Hrd.
Qed.

(** C4 (amended).  With SkipBLSVerify unset, on a non-empty batch of three
    equal-length slices without a conflicting pair, provided the library
    decompresses every coalesced signature (it returns one point per
    signature) and aggregates any two points: the loop of
    [VerifyMultipleSignatures] runs to its end and the pairing check is
    called on three term slices of one length whose messages are the
    messages of the input, each exactly once, so that the number of terms
    is the number of distinct messages; an entry for a message that already
    has a term is never added as a further term but merged into the slot of
    that message, which ends up holding the merge of all coalesced entries
    for it (skipped when key and signature equal the slot's, aggregated
    into it otherwise). *)
Theorem one_pairing_term_per_message
    env randGen (sigs msgs : list bytes) (pubKeys : list PublicKey)
    sigs' msgs' pubKeys' :
  SkipBLSVerify (featureconfig_Get env) = false →
  sigs ≠ [] →
  length sigs = length pubKeys → length sigs = length msgs →
  removeDuplicates sigs msgs pubKeys = Val (sigs', msgs', pubKeys', None) →
  length (P2Affine_BatchUncompress sigs') = length sigs' →
  aggregation_total →
  let rawSigs := P2Affine_BatchUncompress sigs' in
  ∃ st,
    for_loop (VerifyMultipleSignatures_body rawSigs msgs' pubKeys')
             (length rawSigs) 0 batch_init = Next st
    ∧ VerifyMultipleSignatures env randGen sigs msgs pubKeys
      = Val (P2Affine_MultipleAggregateVerify
               (mulP2Aff st) (mulP1Aff st) (rawMsgs st) dst
               randFunc randGen randBitsEntropy, None)
    ∧ length (mulP1Aff st) = length (rawMsgs st)
    ∧ length (mulP2Aff st) = length (rawMsgs st)
    ∧ NoDup (rawMsgs st)
    ∧ (∀ m, m ∈ rawMsgs st ↔ m ∈ msgs)
    ∧ length (rawMsgs st) = length (remove_dups msgs)
    ∧ (∀ indx m, rawMsgs st !! indx = Some m →
         ∃ k sg, mulP1Aff st !! indx = Some k ∧ mulP2Aff st !! indx = Some sg
                 ∧ slot_of m (zip3 rawSigs msgs' pubKeys') = Val (Some (k, sg))).
Proof.
  intros Hflag Hne Hp Hm Hrd Hbu Htot rawSigs.
  destruct (removeDuplicates_ok _ _ _ _ _ _ Hm Hp Hrd) as (Hm' & Hp' & Hmsgs).
  assert (length rawSigs = length msgs') as Hrm by (unfold rawSigs; lia).
  assert (length rawSigs = length pubKeys') as Hrp by (unfold rawSigs; lia).
  destruct (batch_run_total (zip3 rawSigs msgs' pubKeys') Htot) as [st Hrun].
  pose proof (batch_run_inv _ _ Hrun) as Hinv.
  assert (for_loop (VerifyMultipleSignatures_body rawSigs msgs' pubKeys')
                   (length rawSigs) 0 batch_init = Next st) as Hloop.
  { rewrite <- (zip3_length rawSigs msgs' pubKeys' Hrm Hrp).
    rewrite (@for_loop_all (P2Affine * bytes * PublicKey) _ _ _ batch_step);
      [done|].
    intros j e st0. apply VerifyMultipleSignatures_body_entry. }
  assert (∀ m, m ∈ rawMsgs st ↔ m ∈ msgs) as Hsame.
  { intros m. rewrite (binv_msgs _ _ Hinv m).
    rewrite (r_msg_zip3 rawSigs msgs' pubKeys' Hrm Hrp). apply Hmsgs. }
  pose proof (batch_inv_NoDup _ _ Hinv) as Hnodup.
  exists st. split; [done|]. split.
  { rewrite (VerifyMultipleSignatures_checked _ _ _ _ _ Hflag Hne Hp Hm), Hrd.
    simpl. fold rawSigs. by rewrite Hloop. }
  split; [apply (binv_len_keys _ _ Hinv)|].
  split; [apply (binv_len_sigs _ _ Hinv)|].
  split; [done|]. split; [done|]. split.
  - apply Permutation_length, NoDup_Permutation; [done|apply NoDup_remove_dups|].
    intros m. by rewrite Hsame, elem_of_remove_dups.
  - intros indx m. apply (binv_slot _ _ Hinv).
Qed.


(** C6 (amended).  With SkipBLSVerify unset, for every signature,
    [AggregateVerify] returns false whenever the numbers of public keys and
    of messages differ or either slice is empty; the function has no error
    result and no panicking step, its only channel is the boolean. *)
Theorem AggregateVerify_rejects_bad_shapes
    env (s : Signature) (pubKeys : list PublicKey) (msgs : list bytes) :
  SkipBLSVerify (featureconfig_Get env) = false →
  length pubKeys ≠ length msgs ∨ pubKeys = [] ∨ msgs = [] →
  AggregateVerify env s pubKeys msgs = false.
Proof.
  intros Hflag Hshape. unfold AggregateVerify. rewrite Hflag. cbv zeta.
  destruct (length pubKeys =? 0) eqn:H0; [done|].
  destruct (length pubKeys =? length msgs) eqn:Heq; [|done].
  apply Nat.eqb_neq in H0. apply Nat.eqb_eq in Heq.
  destruct Hshape as [?|[-> | ->]]; simpl in *; congruence.
Qed.

(** C7 (amended).  With SkipBLSVerify unset, for every signature and
    message, [FastAggregateVerify] returns false on an empty slice of
    public keys, and on a non-empty one its result is that of aggregating
    all public keys into one key and running the single-message [Verify]
    against it (false when the library cannot aggregate them). *)
Theorem FastAggregateVerify_is_verify_of_aggregate
    env (s : Signature) (pubKeys : list PublicKey) (msg : bytes) :
  SkipBLSVerify (featureconfig_Get env) = false →
  (pubKeys = [] → FastAggregateVerify env s pubKeys msg = false)
  ∧ (pubKeys ≠ [] →
     FastAggregateVerify env s pubKeys msg
     = match AggregatePublicKeys pubKeys with
       | Some aggKey => Verify env s aggKey msg
       | None => false
       end).
Proof.
  intros Hflag. unfold FastAggregateVerify, Verify. rewrite Hflag. split.
  - by intros ->.
  - intros Hne. destruct pubKeys as [|pk pubKeys]; [done|].
    cbn [length Nat.eqb]. cbv zeta.
    unfold P2Affine_FastAggregateVerify, AggregatePublicKeys.
    by destruct (P1Aggregate_Aggregate _).
Qed.

(** C8.  [AggregateSignatures] of the empty slice is the nil signature,
    whatever the configuration; the function has no error result. *)
Theorem AggregateSignatures_empty env :
  AggregateSignatures env ([] : list Signature) = None.
Proof. reflexivity. Qed.


(** C10.  When SkipBLSVerify is set, [Verify], [AggregateVerify] and
    [FastAggregateVerify] return true and [VerifyMultipleSignatures]
    returns (true, no error) on every input, empty and length-mismatched
    slices and conflicting duplicates included. *)
Theorem SkipBLSVerify_bypasses_everything env :
  SkipBLSVerify (featureconfig_Get env) = true →
  (∀ (s : Signature) pubKey msg, Verify env s pubKey msg = true)
  ∧ (∀ (s : Signature) pubKeys msgs, AggregateVerify env s pubKeys msgs = true)
  ∧ (∀ (s : Signature) pubKeys msg, FastAggregateVerify env s pubKeys msg = true)
  ∧ (∀ randGen sigs msgs (pubKeys : list PublicKey),
       VerifyMultipleSignatures env randGen sigs msgs pubKeys = Val (true, None)).
Proof.
  intros Hflag.
  unfold Verify, AggregateVerify, FastAggregateVerify, VerifyMultipleSignatures.
  by rewrite Hflag.
Qed.

End EntryPoints.

(** ** The theorems at concrete batches *)

Section Concrete.
Import Toy.

Lemma VerifyMultipleSignatures_structural_errors_witness :
  SkipBLSVerify (featureconfig_Get real) = false
  ∧ VerifyMultipleSignatures real (gen 7) [[Byte.x02]] [m1; m1] [key 1]
    = Val (false, Some (ErrDifferingLengths 1 1 2)).
Proof.
  split; [reflexivity|].
  destruct (VerifyMultipleSignatures_structural_errors
              real (gen 7) [[Byte.x02]] [m1; m1] [key 1] eq_refl) as (_ & H & _).
  apply H; [discriminate|discriminate|].
  simpl. intros [_ Hlen]. discriminate Hlen.
Defined.

(** C1, as stated, at a batch without signatures: the lengths differ, yet
    the result is (false, no error). *)
Lemma empty_signatures_no_length_error :
  ¬ (length ([] : list bytes) = length [key 1]
     ∧ length ([] : list bytes) = length [m1])
  ∧ VerifyMultipleSignatures real (gen 7) [] [m1] [key 1] = Val (false, None)
  ∧ VerifyMultipleSignatures real (gen 7) [] [m1] [key 1]
    ≠ Val (false, Some (ErrDifferingLengths 0 1 1)).
Proof.
  split; [|split].
  - simpl. intros [H _]. discriminate H.
  - reflexivity.
  - discriminate.
Qed.

Lemma conflicting_duplicate_rejected_witness :
  SkipBLSVerify (featureconfig_Get real) = false
  ∧ (e_msg valid_entry ∉ msgs_of [other_entry])
  ∧ conflicting valid_entry half_entry = true
  ∧ VerifyMultipleSignatures real (gen 7)
      (sigs_of [other_entry; valid_entry; merged_entry; half_entry])
      (msgs_of [other_entry; valid_entry; merged_entry; half_entry])
      (keys_of [other_entry; valid_entry; merged_entry; half_entry])
    = Val (false, Some ErrInvalidPair).
Proof.
  assert (e_msg valid_entry ∉ msgs_of [other_entry]) as Hfirst.
  { apply not_elem_of_cons. split; [discriminate|apply not_elem_of_nil]. }
  split; [reflexivity|]. split; [exact Hfirst|]. split; [reflexivity|].
  apply (conflicting_duplicate_rejected real (gen 7)
           [other_entry] [merged_entry] [] valid_entry half_entry
           eq_refl Hfirst eq_refl).
Defined.

(** C2, as stated, at a batch whose third entry has the public key of the
    second, an entry already seen for the message, and another signature:
    no error is returned and the filter keeps all three entries. *)
Lemma conflict_with_later_entry_not_detected :
  conflicting second_entry third_entry = true
  ∧ removeDuplicates (sigs_of [first_entry; second_entry; third_entry])
                     (msgs_of [first_entry; second_entry; third_entry])
                     (keys_of [first_entry; second_entry; third_entry])
    = Val (sigs_of [first_entry; second_entry; third_entry],
           msgs_of [first_entry; second_entry; third_entry],
           keys_of [first_entry; second_entry; third_entry], None)
  ∧ VerifyMultipleSignatures real (gen 7)
      (sigs_of [first_entry; second_entry; third_entry])
      (msgs_of [first_entry; second_entry; third_entry])
      (keys_of [first_entry; second_entry; third_entry])
    = Val (false, None).
Proof. split; [|split]; by vm_compute. Qed.



Lemma toy_aggregation_total : aggregation_total.
Proof. split; intros a b; by eexists. Defined.

Lemma one_pairing_term_per_message_witness :
  let b := [valid_entry; other_entry; merged_entry] in
  SkipBLSVerify (featureconfig_Get real) = false
  ∧ sigs_of b ≠ []
  ∧ length (sigs_of b) = length (keys_of b)
  ∧ length (sigs_of b) = length (msgs_of b)
  ∧ removeDuplicates (sigs_of b) (msgs_of b) (keys_of b)
    = Val (sigs_of b, msgs_of b, keys_of b, None)
  ∧ length (P2Affine_BatchUncompress (sigs_of b)) = length (sigs_of b)
  ∧ aggregation_total
  ∧ ∃ st,
      VerifyMultipleSignatures real (gen 7) (sigs_of b) (msgs_of b) (keys_of b)
      = Val (P2Affine_MultipleAggregateVerify
               (mulP2Aff st) (mulP1Aff st) (rawMsgs st) dst
               randFunc (gen 7) randBitsEntropy, None)
      ∧ NoDup (rawMsgs st)
      ∧ length (rawMsgs st) = length (remove_dups (msgs_of b)).
Proof.
  intros b.
  assert (sigs_of b ≠ []) as Hne by discriminate.
  assert (removeDuplicates (sigs_of b) (msgs_of b) (keys_of b)
          = Val (sigs_of b, msgs_of b, keys_of b, None)) as Hrd
    by (vm_compute; reflexivity).
  split; [reflexivity|]. split; [exact Hne|]. split; [reflexivity|].
  split; [reflexivity|]. split; [exact Hrd|]. split; [reflexivity|].
  split; [exact toy_aggregation_total|].
  destruct (one_pairing_term_per_message real (gen 7)
              (sigs_of b) (msgs_of b) (keys_of b)
              (sigs_of b) (msgs_of b) (keys_of b)
              eq_refl Hne eq_refl eq_refl Hrd eq_refl toy_aggregation_total)
    as (st & _ & Hv & _ & _ & Hnd & _ & Hlen & _).
  exists st. split; [exact Hv|]. split; [exact Hnd|exact Hlen].
Defined.

(** C4, as stated, at a batch whose only signature does not decode: the
    library hands back no points, the loop does not run and the pairing
    check is called without terms, whereas the input has one message. *)
Lemma undecodable_signature_no_terms :
  let b := [undecodable_entry] in
  removeDuplicates (sigs_of b) (msgs_of b) (keys_of b)
  = Val (sigs_of b, msgs_of b, keys_of b, None)
  ∧ P2Affine_BatchUncompress (sigs_of b) = []
  ∧ for_loop (VerifyMultipleSignatures_body
                (P2Affine_BatchUncompress (sigs_of b)) (msgs_of b) (keys_of b))
             (length (P2Affine_BatchUncompress (sigs_of b))) 0 batch_init
    = Next batch_init
  ∧ VerifyMultipleSignatures real (gen 7) (sigs_of b) (msgs_of b) (keys_of b)
    = Val (P2Affine_MultipleAggregateVerify
             (mulP2Aff batch_init) (mulP1Aff batch_init) (rawMsgs batch_init)
             dst randFunc (gen 7) randBitsEntropy, None)
  ∧ length (rawMsgs batch_init) = 0
  ∧ length (remove_dups (msgs_of b)) = 1.
Proof. repeat split; by vm_compute. Qed.

Lemma repeated_entry_dropped_witness :
  (e_msg valid_entry ∉ msgs_of [other_entry])
  ∧ duplicate valid_entry valid_entry = true
  ∧ VerifyMultipleSignatures real (gen 7)
      (sigs_of [other_entry; valid_entry; merged_entry; valid_entry])
      (msgs_of [other_entry; valid_entry; merged_entry; valid_entry])
      (keys_of [other_entry; valid_entry; merged_entry; valid_entry])
    = VerifyMultipleSignatures real (gen 7)
      (sigs_of [other_entry; valid_entry; merged_entry])
      (msgs_of [other_entry; valid_entry; merged_entry])
      (keys_of [other_entry; valid_entry; merged_entry]).
Proof.
  assert (e_msg valid_entry ∉ msgs_of [other_entry]) as Hfirst.
  { apply not_elem_of_cons. split; [discriminate|apply not_elem_of_nil]. }
  split; [exact Hfirst|]. split; [reflexivity|].
  apply (repeated_entry_dropped real (gen 7)
           [other_entry] [merged_entry] [] valid_entry valid_entry
           Hfirst eq_refl).
Defined.

(** C5, as stated, at a batch that holds its second entry twice: the repeat
    equals an entry already seen for the message in key and signature, is
    kept by the filter and aggregated once more, and the batch that
    verifies without the repeat fails with it. *)
Lemma repeat_of_later_entry_changes_result :
  duplicate second_entry second_entry = true
  ∧ removeDuplicates (sigs_of [first_entry; second_entry; second_entry])
                     (msgs_of [first_entry; second_entry; second_entry])
                     (keys_of [first_entry; second_entry; second_entry])
    = Val (sigs_of [first_entry; second_entry; second_entry],
           msgs_of [first_entry; second_entry; second_entry],
           keys_of [first_entry; second_entry; second_entry], None)
  ∧ VerifyMultipleSignatures real (gen 7)
      (sigs_of [first_entry; second_entry])
      (msgs_of [first_entry; second_entry])
      (keys_of [first_entry; second_entry])
    = Val (true, None)
  ∧ VerifyMultipleSignatures real (gen 7)
      (sigs_of [first_entry; second_entry; second_entry])
      (msgs_of [first_entry; second_entry; second_entry])
      (keys_of [first_entry; second_entry; second_entry])
    = Val (false, None).
Proof. repeat split; by vm_compute. Qed.

Lemma AggregateVerify_rejects_bad_shapes_witness :
  SkipBLSVerify (featureconfig_Get real) = false
  ∧ length [key 1; key 2] ≠ length [m1]
  ∧ AggregateVerify real (signature 2) [key 1; key 2] [m1] = false.
Proof.
  split; [reflexivity|]. split; [discriminate|].
  apply (AggregateVerify_rejects_bad_shapes real (signature 2) [key 1; key 2] [m1]
           eq_refl).
  left. discriminate.
Defined.

(** C6, as stated, with the flag set: no key, no message, and the result
    is true. *)
Lemma AggregateVerify_true_when_skipping :
  ([] : list PublicKey) = []
  ∧ AggregateVerify skipping no_signature [] [] = true
  ∧ AggregateVerify skipping no_signature [] [] ≠ false.
Proof. by repeat split. Qed.

Lemma FastAggregateVerify_is_verify_of_aggregate_witness :
  SkipBLSVerify (featureconfig_Get real) = false
  ∧ [key 1; key 2] ≠ []
  ∧ FastAggregateVerify real (signature 6) [key 1; key 2] m1
    = Verify real (signature 6) (key 3) m1.
Proof.
  split; [reflexivity|]. split; [discriminate|].
  destruct (FastAggregateVerify_is_verify_of_aggregate
              real (signature 6) [key 1; key 2] m1 eq_refl) as [_ H].
  rewrite H by discriminate. reflexivity.
Defined.

(** C7, as stated, with the flag set: no public key, and the result is
    true. *)
Lemma FastAggregateVerify_true_when_skipping :
  FastAggregateVerify skipping no_signature [] m1 = true
  ∧ FastAggregateVerify skipping no_signature [] m1 ≠ false.
Proof. by split. Qed.



Lemma SkipBLSVerify_bypasses_everything_witness :
  SkipBLSVerify (featureconfig_Get skipping) = true
  ∧ Verify skipping no_signature (key 1) m1 = true
  ∧ AggregateVerify skipping no_signature [] [m1] = true
  ∧ FastAggregateVerify skipping no_signature [] m1 = true
  ∧ VerifyMultipleSignatures skipping (gen 7) [] [m1] [key 1; key 2] = Val (true, None).
Proof.
  split; [reflexivity|].
  destruct (SkipBLSVerify_bypasses_everything skipping eq_refl)
    as (Hv & Ha & Hf & Hm).
  split; [apply Hv|]. split; [apply Ha|]. split; [apply Hf|apply Hm].
Defined.

End Concrete.

(** * Further properties of the package *)

(** ** The duplicate filter as a function of the batch *)

Section FilterSpec.
Context `{B : Blst}.

Lemma kept_from_snoc (pre r : list entry) t :
  kept_from pre (r ++ [t])
  = kept_from pre r ++ (if keep (pre ++ r) t then [t] else []).
Proof.
  revert pre. induction r as [|a r IH]; intros pre; simpl.
  - by rewrite !app_nil_r.
  - rewrite IH, <- !app_assoc. simpl. done.
Qed.

Lemma kept_snoc (b : list entry) t :
  kept (b ++ [t]) = kept b ++ (if keep b t then [t] else []).
Proof. unfold kept. by rewrite kept_from_snoc. Qed.

Lemma run_Next_inv (b : list entry) st :
  run_list dedup_step b dedup_init = Next st → dedup_inv b st.
Proof.
  destruct (dedup_run b) as [(st' & -> & Hinv)|[-> _]]; [|done].
  by intros [= <-].
Qed.

(** One iteration in terms of the entries scanned so far. *)
Lemma dedup_step_spec pre st t :
  dedup_inv pre st →
  dedup_step t st =
  match first_seen (e_msg t) pre with
  | Some e =>
      if xorb (PublicKey_Equals (e_key e) (e_key t)) (bytes_Equal (e_sig e) (e_sig t))
      then Return ErrInvalidPair
      else if keep pre t
           then Next (dedup_append (e_key t) (e_sig t) (e_msg t) st)
           else Next st
  | None =>
      Next (mkDedup (newPubKeys st ++ [e_key t]) (newSigs st ++ [e_sig t])
                    (newMsgs st ++ [e_msg t])
                    (<[e_msg t := length (newPubKeys st)]> (rd_msgMap st)))
  end.
Proof.
  intros Hinv. destruct (first_seen (e_msg t) pre) as [e|] eqn:Hf.
  - rewrite (dedup_step_first_seen _ _ _ _ Hinv Hf). unfold keep. rewrite Hf.
    by destruct (PublicKey_Equals _ _), (bytes_Equal _ _).
  - apply dedup_step_new.
    destruct (rd_msgMap st !! e_msg t) as [indx|] eqn:Hm; [|done].
    destruct (inv_slot _ _ Hinv _ _ Hm) as (e & Hf' & _). congruence.
Qed.

(** The slices the loop has built are the kept entries. *)
Lemma run_kept (b : list entry) st :
  run_list dedup_step b dedup_init = Next st →
  newSigs st = sigs_of (kept b) ∧ newMsgs st = msgs_of (kept b)
  ∧ newPubKeys st = keys_of (kept b).
Proof.
  revert st. induction b as [|t b IH] using rev_ind; intros st.
  - by intros [= <-].
  - rewrite run_list_snoc.
    destruct (run_list dedup_step b dedup_init) as [st0| |] eqn:Hrun; [|done..].
    destruct (IH st0 eq_refl) as (Hs & Hm & Hk).
    rewrite (dedup_step_spec b _ _ (run_Next_inv _ _ Hrun)), kept_snoc.
    unfold sigs_of, msgs_of, keys_of in *. unfold keep.
    destruct (first_seen (e_msg t) b) as [e|].
    + destruct (xorb _ _); [done|].
      destruct (negb _ && negb _); intros [= <-]; simpl.
      * by rewrite !fmap_app, Hs, Hm, Hk.
      * by rewrite app_nil_r.
    + intros [= <-]. simpl. by rewrite !fmap_app, Hs, Hm, Hk.
Qed.

Lemma run_has_conflict (b : list entry) :
  has_conflict b → run_list dedup_step b dedup_init = Return ErrInvalidPair.
Proof.
  intros (l1 & e & l2 & t & l3 & -> & Hf & [_ Hx]%andb_prop).
  replace (l1 ++ e :: l2 ++ t :: l3) with ((l1 ++ e :: l2) ++ t :: l3)
    by (by rewrite <- app_assoc).
  rewrite run_list_app.
  destruct (dedup_run (l1 ++ e :: l2)) as [(st & -> & Hinv)|[-> _]]; [|done].
  simpl. by rewrite (dedup_step_first_seen _ _ e _ Hinv Hf), Hx.
Qed.

Lemma zip3_fst {A C D} (a : list A) (c : list C) (d : list D) :
  length a = length c → length a = length d →
  (λ e : A * C * D, e.1.1) <$> zip3 a c d = a.
Proof.
  intros Hc Hd. unfold zip3.
  change (λ e : A * C * D, e.1.1) with (fst ∘ fst : A * C * D → A).
  rewrite list_fmap_compose, fst_zip, fst_zip; [done|lia|].
  rewrite length_zip_with. lia.
Qed.

Lemma zip3_snd {A C D} (a : list A) (c : list C) (d : list D) :
  length a = length c → length a = length d →
  (λ e : A * C * D, e.2) <$> zip3 a c d = d.
Proof.
  intros Hc Hd. unfold zip3.
  change (λ e : A * C * D, e.2) with (snd : A * C * D → D).
  rewrite snd_zip; [done|]. rewrite length_zip_with. lia.
Qed.

Lemma sigs_of_zip3 sigs msgs (pubKeys : list PublicKey) :
  length sigs = length msgs → length sigs = length pubKeys →
  sigs_of (zip3 sigs msgs pubKeys) = sigs.
Proof. apply zip3_fst. Qed.

Lemma keys_of_zip3 sigs msgs (pubKeys : list PublicKey) :
  length sigs = length msgs → length sigs = length pubKeys →
  keys_of (zip3 sigs msgs pubKeys) = pubKeys.
Proof. apply zip3_snd. Qed.

Lemma kept_sublist (b : list entry) : kept b `sublist_of` b.
Proof.
  induction b as [|t b IH] using rev_ind; [done|].
  rewrite kept_snoc. apply sublist_app; [done|].
  destruct (keep b t); [done|apply sublist_nil_l].
Qed.

Lemma first_seen_kept m (b : list entry) :
  first_seen m (kept b) = first_seen m b.
Proof.
  induction b as [|t b IH] using rev_ind; [done|].
  rewrite kept_snoc, !first_seen_app, IH.
  destruct (first_seen m b) as [e|] eqn:Hf; [done|].
  unfold keep. simpl. case_bool_decide as Hm.
  - subst m. rewrite Hf. simpl. by rewrite bool_decide_eq_true_2.
  - destruct (match first_seen (e_msg t) b with Some _ => _ | None => true end);
      simpl; [|done].
    by rewrite bool_decide_eq_false_2.
Qed.

Lemma kept_distinct (b : list entry) : NoDup (msgs_of b) → kept b = b.
Proof.
  induction b as [|t b IH] using rev_ind; [done|].
  unfold msgs_of. rewrite fmap_app, NoDup_app. simpl.
  intros (Hb & Hnew & _). rewrite kept_snoc, (IH Hb). unfold keep.
  destruct (first_seen (e_msg t) b) as [e|] eqn:Hf; [|done].
  exfalso. apply (Hnew (e_msg t)); [|by apply list_elem_of_singleton].
  destruct (first_seen_split _ _ _ Hf) as (l1 & l2 & -> & Hm & _).
  rewrite fmap_app, elem_of_app. right. simpl. rewrite Hm. by left.
Qed.

Lemma distinct_no_conflict (b : list entry) :
  NoDup (msgs_of b) → ¬ has_conflict b.
Proof.
  intros Hnd (l1 & e & l2 & t & l3 & -> & _ & [Hm _]%andb_prop).
  apply bool_decide_eq_true_1 in Hm.
  unfold msgs_of in Hnd. rewrite fmap_app in Hnd. simpl in Hnd.
  apply NoDup_app in Hnd as (_ & _ & Hnd). apply NoDup_cons in Hnd as [Hnot _].
  apply Hnot. rewrite fmap_app, elem_of_app. right. simpl. rewrite Hm. by left.
Qed.

(** The state after the kept entries is the state after all of them. *)
Lemma run_kept_same (b : list entry) st :
  run_list dedup_step b dedup_init = Next st →
  run_list dedup_step (kept b) dedup_init = Next st.
Proof.
  revert st. induction b as [|t b IH] using rev_ind; intros st; [done|].
  rewrite run_list_snoc.
  destruct (run_list dedup_step b dedup_init) as [st0| |] eqn:Hrun; [|done..].
  rewrite (dedup_step_spec b _ _ (run_Next_inv _ _ Hrun)), kept_snoc.
  pose proof (dedup_step_spec b st0 t (run_Next_inv _ _ Hrun)) as Hstep.
  unfold keep in *.
  destruct (first_seen (e_msg t) b) as [e|].
  - destruct (xorb _ _); [done|].
    destruct (negb _ && negb _); intros [= <-].
    + by rewrite run_list_snoc, (IH st0 eq_refl).
    + rewrite app_nil_r. by apply IH.
  - intros [= <-]. by rewrite run_list_snoc, (IH st0 eq_refl).
Qed.

(** The function in terms of the scan and of the kept entries. *)
Lemma removeDuplicates_via_kept (sigs msgs : list bytes) (pubKeys : list PublicKey) :
  length sigs = length msgs → length sigs = length pubKeys →
  removeDuplicates sigs msgs pubKeys =
  match run_list dedup_step (zip3 sigs msgs pubKeys) dedup_init with
  | Next _ =>
      Val (sigs_of (kept (zip3 sigs msgs pubKeys)),
           msgs_of (kept (zip3 sigs msgs pubKeys)),
           keys_of (kept (zip3 sigs msgs pubKeys)), None)
  | Return err => Val ([], [], [], Some err)
  | Crash => Panic
  end.
Proof.
  intros Hm Hp. rewrite (removeDuplicates_run _ _ _ Hm Hp).
  destruct (run_list dedup_step (zip3 sigs msgs pubKeys) dedup_init)
    as [st| |] eqn:Hrun; [|done..].
  by destruct (run_kept _ _ Hrun) as (-> & -> & ->).
Qed.

(** The filter on the kept entries of a batch that it accepts. *)
Lemma removeDuplicates_kept_again (b : list entry) st :
  run_list dedup_step b dedup_init = Next st →
  removeDuplicates (sigs_of (kept b)) (msgs_of (kept b)) (keys_of (kept b))
  = Val (sigs_of (kept b), msgs_of (kept b), keys_of (kept b), None).
Proof.
  intros Hrun. rewrite removeDuplicates_batch, (run_kept_same _ _ Hrun).
  by destruct (run_kept _ _ Hrun) as (-> & -> & ->).
Qed.

(** The filter on a batch of pairwise distinct messages. *)
Lemma filter_distinct (b : list entry) :
  NoDup (msgs_of b) →
  removeDuplicates (sigs_of b) (msgs_of b) (keys_of b)
  = Val (sigs_of b, msgs_of b, keys_of b, None).
Proof.
  intros Hnd. rewrite removeDuplicates_batch.
  destruct (dedup_run b) as [(st & Hrun & _)|[_ Hc]].
  - rewrite Hrun. destruct (run_kept _ _ Hrun) as (-> & -> & ->).
    by rewrite (kept_distinct _ Hnd).
  - by apply distinct_no_conflict in Hc.
Qed.


(** X2.  What a successful [removeDuplicates] returns: three slices of one
    length, not longer than the input; read as entries they are a
    subsequence of the input entries, carry the same messages as the
    input, and the first entry for every message is still the first one
    for it. *)
Theorem removeDuplicates_shape
    (sigs msgs : list bytes) (pubKeys : list PublicKey) sigs' msgs' pubKeys' :
  length sigs = length msgs → length sigs = length pubKeys →
  removeDuplicates sigs msgs pubKeys = Val (sigs', msgs', pubKeys', None) →
  length msgs' = length sigs' ∧ length pubKeys' = length sigs'
  ∧ length sigs' ≤ length sigs
  ∧ zip3 sigs' msgs' pubKeys' `sublist_of` zip3 sigs msgs pubKeys
  ∧ (∀ m, m ∈ msgs' ↔ m ∈ msgs)
  ∧ (∀ m, first_seen m (zip3 sigs' msgs' pubKeys')
          = first_seen m (zip3 sigs msgs pubKeys)).
Proof.
  intros Hm Hp Hrd.
  destruct (removeDuplicates_ok _ _ _ _ _ _ Hm Hp Hrd) as (Hm' & Hp' & Hmsgs).
  rewrite (removeDuplicates_via_kept _ _ _ Hm Hp) in Hrd.
  destruct (run_list dedup_step (zip3 sigs msgs pubKeys) dedup_init); [|done..].
  injection Hrd as <- <- <-. rewrite zip3_batch.
  split; [done|]. split; [done|].
  split.
  { unfold sigs_of. rewrite length_fmap.
    pose proof (sublist_length _ _ (kept_sublist (zip3 sigs msgs pubKeys))) as Hle.
    assert (length (zip3 sigs msgs pubKeys : list entry) = length sigs) as Hl
      by by apply zip3_length.
    by rewrite Hl in Hle. }
  split; [apply kept_sublist|]. split; [done|]. intros m. apply first_seen_kept.
Qed.

(** X3.  On a batch of pairwise distinct messages [removeDuplicates]
    returns its three arguments unchanged and no error. *)
Theorem removeDuplicates_distinct_messages
    (sigs msgs : list bytes) (pubKeys : list PublicKey) :
  length sigs = length msgs → length sigs = length pubKeys →
  NoDup msgs →
  removeDuplicates sigs msgs pubKeys = Val (sigs, msgs, pubKeys, None).
Proof.
  intros Hm Hp Hnd.
  assert (NoDup (msgs_of (zip3 sigs msgs pubKeys))) as Hnd'
    by by rewrite msgs_of_zip3.
  pose proof (filter_distinct _ Hnd') as Hid.
  by rewrite (sigs_of_zip3 _ _ _ Hm Hp), (msgs_of_zip3 _ _ _ Hm Hp),
    (keys_of_zip3 _ _ _ Hm Hp) in Hid.
Qed.

(** X4.  [removeDuplicates] is idempotent: applied to the three slices it
    has returned it returns them again, with no error. *)
Theorem removeDuplicates_idempotent
    (sigs msgs : list bytes) (pubKeys : list PublicKey) sigs' msgs' pubKeys' :
  length sigs = length msgs → length sigs = length pubKeys →
  removeDuplicates sigs msgs pubKeys = Val (sigs', msgs', pubKeys', None) →
  removeDuplicates sigs' msgs' pubKeys' = Val (sigs', msgs', pubKeys', None).
Proof.
  intros Hm Hp. rewrite (removeDuplicates_via_kept _ _ _ Hm Hp).
  destruct (run_list dedup_step (zip3 sigs msgs pubKeys) dedup_init)
    as [st| |] eqn:Hrun; [|done..].
  intros [= <- <- <-]. by apply removeDuplicates_kept_again with st.
Qed.

Lemma for_loop_split {S R} (body : nat → S → step S R) a c from st :
  for_loop body (a + c) from st =
  match for_loop body a from st with
  | Next st' => for_loop body c (from + a) st'
  | Return r => Return r
  | Crash => Crash
  end.
Proof.
  revert from st. induction a as [|a IH]; intros from st; simpl.
  - by rewrite Nat.add_0_r.
  - destruct (body from st); [|done..].
    rewrite IH. by replace (Datatypes.S from + a) with (from + Datatypes.S a) by lia.
Qed.

Lemma zip3_length_min {A C D} (a : list A) (c : list C) (d : list D) :
  length (zip3 a c d) = (length a `min` length c) `min` length d.
Proof. unfold zip3. by rewrite !length_zip_with. Qed.

(** X5.  [removeDuplicates] does not check its arguments against each
    other: when there are fewer messages or fewer public keys than
    signatures it cannot succeed; it panics on the first index out of range,
    unless a conflicting pair among the entries before that index makes it
    return the invalid-pair error first. *)
Theorem removeDuplicates_short_slices
    (sigs msgs : list bytes) (pubKeys : list PublicKey) :
  length msgs < length sigs ∨ length pubKeys < length sigs →
  removeDuplicates sigs msgs pubKeys = Panic
  ∨ removeDuplicates sigs msgs pubKeys = Val ([], [], [], Some ErrInvalidPair).
Proof.
  intros Hshort. unfold removeDuplicates. cbv zeta.
  set (b := zip3 sigs msgs pubKeys).
  assert (length b < length sigs) as Hlt.
  { unfold b. rewrite zip3_length_min. lia. }
  replace (length sigs) with (length b + Datatypes.S (length sigs - length b - 1)) by lia.
  rewrite for_loop_split.
  rewrite (@for_loop_all (bytes * bytes * PublicKey) _ _ _ dedup_step);
    [|intros j e st; apply removeDuplicates_body_entry].
  change (list (bytes * bytes * PublicKey)) with (list entry) in b.
  destruct (dedup_run b) as [(st & Hrun & Hinv)|[Hrun _]];
    unfold entry in *; rewrite Hrun; [|by right].
  left. simpl. unfold removeDuplicates_body, index.
  destruct (msgs !! length b) as [m|] eqn:Hm; simpl; [|done].
  assert (pubKeys !! length b = None) as Hk.
  { apply lookup_ge_None. apply lookup_lt_Some in Hm.
    unfold b in *. rewrite zip3_length_min in *. lia. }
  rewrite Hk.
  destruct (rd_msgMap st !! m) as [indx|] eqn:Hmap; simpl; [|done].
  destruct (inv_slot _ _ Hinv _ _ Hmap) as (e & _ & -> & _). done.
Qed.

End FilterSpec.

(** ** The batch verifier as a whole *)

Section BatchVerifier.
Context `{B : Blst}.

Lemma batch_loop_run (rawSigs : list P2Affine) msgs (pubKeys : list PublicKey) :
  length rawSigs ≤ length msgs → length rawSigs ≤ length pubKeys →
  for_loop (VerifyMultipleSignatures_body rawSigs msgs pubKeys)
           (length rawSigs) 0 batch_init
  = run_list batch_step (zip3 rawSigs msgs pubKeys) batch_init.
Proof.
  intros Hm Hp.
  assert (length rawSigs = length (zip3 rawSigs msgs pubKeys)) as ->
    by (rewrite zip3_length_min; lia).
  apply (@for_loop_all (P2Affine * bytes * PublicKey) _ _ _ batch_step).
  intros j e st. apply VerifyMultipleSignatures_body_entry.
Qed.

(** Past the guards of [VerifyMultipleSignatures], in terms of the scan of
    the duplicate filter. *)
Lemma VerifyMultipleSignatures_scan env randGen sigs msgs (pubKeys : list PublicKey) :
  SkipBLSVerify (featureconfig_Get env) = false →
  sigs ≠ [] →
  length sigs = length pubKeys → length sigs = length msgs →
  VerifyMultipleSignatures env randGen sigs msgs pubKeys =
  match run_list dedup_step (zip3 sigs msgs pubKeys) dedup_init with
  | Next d =>
      let rawSigs := P2Affine_BatchUncompress (newSigs d) in
      match for_loop (VerifyMultipleSignatures_body rawSigs (newMsgs d) (newPubKeys d))
                     (length rawSigs) 0 batch_init with
      | Next st =>
          Val (P2Affine_MultipleAggregateVerify
                 (mulP2Aff st) (mulP1Aff st) (rawMsgs st) dst
                 randFunc randGen randBitsEntropy, None)
      | Return r => match r with end
      | Crash => Panic
      end
  | Return e => Val (false, Some e)
  | Crash => Panic
  end.
Proof.
  intros Hflag Hne Hp Hm.
  rewrite (VerifyMultipleSignatures_checked _ _ _ _ _ Hflag Hne Hp Hm).
  rewrite (removeDuplicates_run _ _ _ Hm Hp).
  by destruct (run_list dedup_step _ _).
Qed.

(** X6.  With SkipBLSVerify unset, [VerifyMultipleSignatures] returns a
    non-nil error exactly when signatures and public keys are both present
    and either the three lengths are not all equal or the batch holds an
    entry that agrees in exactly one of key and signature with the first
    entry for its message. *)
Theorem VerifyMultipleSignatures_error_iff
    env randGen (sigs msgs : list bytes) (pubKeys : list PublicKey) :
  SkipBLSVerify (featureconfig_Get env) = false →
  (∃ b err, VerifyMultipleSignatures env randGen sigs msgs pubKeys = Val (b, Some err))
  ↔ sigs ≠ [] ∧ pubKeys ≠ []
    ∧ (¬ (length sigs = length pubKeys ∧ length sigs = length msgs)
       ∨ has_conflict (zip3 sigs msgs pubKeys)).
Proof.
  intros Hflag.
  destruct (decide (sigs = [] ∨ pubKeys = [])) as [Hempty|Hne].
  { split; [|by intros (Hs & Hp & _); destruct Hempty].
    intros (b & err & H). revert H.
    unfold VerifyMultipleSignatures. rewrite Hflag.
    destruct Hempty as [-> | ->]; [done|]. simpl. by rewrite orb_true_r. }
  assert (sigs ≠ [] ∧ pubKeys ≠ []) as [Hs Hp] by (split; intros ->; naive_solver).
  destruct (decide (length sigs = length pubKeys ∧ length sigs = length msgs))
    as [[Hlp Hlm]|Hlen].
  - rewrite (VerifyMultipleSignatures_scan _ _ _ _ _ Hflag Hs Hlp Hlm).
    destruct (dedup_run (zip3 sigs msgs pubKeys)) as [(d & Hrun & _)|[Hrun Hconf]];
      rewrite Hrun.
    + split.
      * intros (b & err & H). revert H. cbv zeta.
        destruct (for_loop _ _ _ _) as [st|[]|]; done.
      * intros (_ & _ & [Hl|Hconf]); [by destruct Hl|].
        apply run_has_conflict in Hconf. congruence.
    + split; [by auto|]. intros _. by eexists _, _.
  - split; [by auto|]. intros _.
    unfold VerifyMultipleSignatures.
    rewrite Hflag, (nonempty_lengths _ _ Hs Hp). cbv zeta.
    destruct (negb _ || negb _) eqn:Hcmp; [by eexists _, _|].
    by apply lengths_differ in Hcmp.
Qed.


(** The loop on entries with pairwise distinct messages opens one term per
    entry, in order, and counts no repetition. *)
Lemma batch_run_distinct (pre : list raw_entry) :
  NoDup (r_msg <$> pre) →
  ∃ st, run_list batch_step pre batch_init = Next st
        ∧ mulP1Aff st = (λ e, PublicKey_p (r_key e)) <$> pre
        ∧ rawMsgs st = r_msg <$> pre
        ∧ mulP2Aff st = r_sig <$> pre
        ∧ repeatedSigs st = 0.
Proof.
  induction pre as [|e pre IH] using rev_ind; [by eexists|].
  rewrite fmap_app, NoDup_app. simpl. intros (Hpre & Hnew & _).
  destruct (IH Hpre) as (st & Hrun & H1 & Hm & H2 & Hr).
  rewrite run_list_snoc, Hrun.
  pose proof (batch_run_inv _ _ Hrun) as Hinv.
  assert (msgMap st !! r_msg e = None) as Hnone.
  { destruct (msgMap st !! r_msg e) as [indx|] eqn:Hl; [|done].
    apply (binv_map _ _ Hinv) in Hl. apply list_elem_of_lookup_2 in Hl.
    rewrite Hm in Hl. exfalso. apply (Hnew _ Hl). by apply list_elem_of_singleton. }
  rewrite (batch_step_new _ _ Hnone). eexists. split; [done|]. simpl.
  by rewrite !fmap_app, H1, Hm, H2.
Qed.

Lemma r_sig_zip3 (rawSigs : list P2Affine) msgs (pubKeys : list PublicKey) :
  length rawSigs = length msgs → length rawSigs = length pubKeys →
  r_sig <$> zip3 rawSigs msgs pubKeys = rawSigs.
Proof. apply zip3_fst. Qed.

Lemma r_key_zip3 (rawSigs : list P2Affine) msgs (pubKeys : list PublicKey) :
  length rawSigs = length msgs → length rawSigs = length pubKeys →
  r_key <$> zip3 rawSigs msgs pubKeys = pubKeys.
Proof. apply zip3_snd. Qed.

Lemma key_points_zip3 (rawSigs : list P2Affine) msgs (pubKeys : list PublicKey) :
  length rawSigs = length msgs → length rawSigs = length pubKeys →
  (λ e : raw_entry, PublicKey_p (r_key e)) <$> zip3 rawSigs msgs pubKeys
  = PublicKey_p <$> pubKeys.
Proof.
  intros Hm Hp.
  rewrite <- (r_key_zip3 rawSigs msgs pubKeys Hm Hp) at 2.
  by rewrite <- list_fmap_compose.
Qed.

(** X8.  With SkipBLSVerify unset, on a non-empty batch of three
    equal-length slices with pairwise distinct messages, all of whose
    signatures the library decompresses, [VerifyMultipleSignatures] is
    the library's multiple-aggregate verification of the decompressed
    signatures, the points of the public keys and the messages, in the
    order given, and returns no error. *)
Theorem VerifyMultipleSignatures_distinct_messages
    env randGen (sigs msgs : list bytes) (pubKeys : list PublicKey) :
  SkipBLSVerify (featureconfig_Get env) = false →
  sigs ≠ [] →
  length sigs = length pubKeys → length sigs = length msgs →
  NoDup msgs →
  length (P2Affine_BatchUncompress sigs) = length sigs →
  VerifyMultipleSignatures env randGen sigs msgs pubKeys
  = Val (P2Affine_MultipleAggregateVerify
           (P2Affine_BatchUncompress sigs) (PublicKey_p <$> pubKeys) msgs dst
           randFunc randGen randBitsEntropy, None).
Proof.
  intros Hflag Hne Hp Hm Hnd Hbu.
  rewrite (VerifyMultipleSignatures_checked _ _ _ _ _ Hflag Hne Hp Hm).
  assert (removeDuplicates sigs msgs pubKeys = Val (sigs, msgs, pubKeys, None)) as ->.
  { assert (NoDup (msgs_of (zip3 sigs msgs pubKeys))) as Hnd'
      by by rewrite msgs_of_zip3.
    pose proof (filter_distinct _ Hnd') as Hid.
    by rewrite (sigs_of_zip3 _ _ _ Hm Hp), (msgs_of_zip3 _ _ _ Hm Hp),
      (keys_of_zip3 _ _ _ Hm Hp) in Hid. }
  simpl. set (rawSigs := P2Affine_BatchUncompress sigs) in *.
  assert (length rawSigs = length msgs) as Hrm by lia.
  assert (length rawSigs = length pubKeys) as Hrp by lia.
  rewrite batch_loop_run by lia.
  destruct (batch_run_distinct (zip3 rawSigs msgs pubKeys))
    as (st & -> & H1 & H2 & H3 & _).
  { by rewrite (r_msg_zip3 _ _ _ Hrm Hrp). }
  by rewrite H1, H2, H3, (r_msg_zip3 _ _ _ Hrm Hrp), (r_sig_zip3 _ _ _ Hrm Hrp),
    (key_points_zip3 _ _ _ Hrm Hrp).
Qed.

(** The signature bytes of every entry survive the filter, possibly as the
    bytes of the first entry for the message. *)
Lemma sig_kept (b : list entry) st sg :
  run_list dedup_step b dedup_init = Next st →
  sg ∈ sigs_of b → sg ∈ sigs_of (kept b).
Proof.
  revert st. induction b as [|t b IH] using rev_ind; intros st; [done|].
  rewrite run_list_snoc.
  destruct (run_list dedup_step b dedup_init) as [st0| |] eqn:Hrun; [|done..].
  rewrite (dedup_step_spec b _ _ (run_Next_inv _ _ Hrun)), kept_snoc.
  unfold sigs_of. rewrite !fmap_app, !elem_of_app. simpl.
  intros Hstep [Hin|Hin%list_elem_of_singleton]; [left; by eapply IH|].
  subst sg. unfold keep in *.
  destruct (first_seen (e_msg t) b) as [e|] eqn:Hf.
  - destruct (PublicKey_Equals _ _), (bytes_Equal (e_sig e) (e_sig t)) eqn:Hs;
      simpl in *; try done; try (right; by apply list_elem_of_singleton).
    left. apply bool_decide_eq_true_1 in Hs. rewrite <- Hs.
    rewrite <- first_seen_kept in Hf.
    destruct (first_seen_split _ _ _ Hf) as (l1 & l2 & -> & _).
    rewrite fmap_app, elem_of_app. right. by left.
  - right. by apply list_elem_of_singleton.
Qed.

(** X9.  With SkipBLSVerify unset and a library whose batch decompression
    returns no points as soon as one signature does not decompress: if any
    signature of an equal-length batch without conflicting pair does not
    decompress, [VerifyMultipleSignatures] reports no error; the pairing
    check is called on no terms at all and its boolean is returned. *)
Theorem VerifyMultipleSignatures_undecodable
    env randGen (sigs msgs : list bytes) (pubKeys : list PublicKey) sg :
  SkipBLSVerify (featureconfig_Get env) = false →
  length sigs = length pubKeys → length sigs = length msgs →
  ¬ has_conflict (zip3 sigs msgs pubKeys) →
  (∀ l x, x ∈ l → P2Affine_Uncompress x = None → P2Affine_BatchUncompress l = []) →
  sg ∈ sigs → P2Affine_Uncompress sg = None →
  VerifyMultipleSignatures env randGen sigs msgs pubKeys
  = Val (P2Affine_MultipleAggregateVerify [] [] [] dst
           randFunc randGen randBitsEntropy, None).
Proof.
  intros Hflag Hp Hm Hnc Hlib Hin Hbad.
  assert (sigs ≠ []) as Hne by (intros ->; by apply elem_of_nil in Hin).
  rewrite (VerifyMultipleSignatures_scan _ _ _ _ _ Hflag Hne Hp Hm).
  destruct (dedup_run (zip3 sigs msgs pubKeys)) as [(d & Hrun & _)|[_ Hc]]; [|done].
  rewrite Hrun. cbv zeta.
  rewrite (Hlib (newSigs d) sg); [done| |done].
  destruct (run_kept _ _ Hrun) as (-> & _ & _).
  apply (sig_kept _ _ _ Hrun). by rewrite sigs_of_zip3.
Qed.

Lemma batch_run_count (pre : list raw_entry) st :
  run_list batch_step pre batch_init = Next st →
  repeatedSigs st + length (rawMsgs st) = length pre.
Proof.
  revert st. induction pre as [|e pre IH] using rev_ind; intros st.
  - by intros [= <-].
  - rewrite run_list_snoc, length_app. simpl.
    destruct (run_list batch_step pre batch_init) as [st0| |] eqn:Hrun; [|done..].
    pose proof (batch_run_inv _ _ Hrun) as Hinv. specialize (IH st0 eq_refl).
    destruct (msgMap st0 !! r_msg e) as [indx|] eqn:Hm.
    + pose proof (proj1 (binv_map _ _ Hinv _ _) Hm) as Hraw.
      destruct (binv_slot _ _ Hinv _ _ Hraw) as (k & sg & Hlk & Hls & _).
      rewrite (batch_step_seen _ _ _ _ _ Hm Hlk Hls).
      destruct (merge1 _ _) as [[k' sg']|]; [|done].
      intros [= <-]. simpl. lia.
    + rewrite (batch_step_new _ _ Hm). intros [= <-]. simpl.
      rewrite length_app. simpl. lia.
Qed.

(** X10.  When the loop of [VerifyMultipleSignatures] ends, on three
    slices of one length, the counter [repeatedSigs] that the function
    writes to the log is the number of entries minus the number of distinct
    messages, and the number of pairing terms is the number of distinct
    messages. *)
Theorem repeatedSigs_counts_repeated_messages
    (rawSigs : list P2Affine) (msgs : list bytes) (pubKeys : list PublicKey) st :
  length rawSigs = length msgs → length rawSigs = length pubKeys →
  for_loop (VerifyMultipleSignatures_body rawSigs msgs pubKeys)
           (length rawSigs) 0 batch_init = Next st →
  repeatedSigs st + length (remove_dups msgs) = length msgs
  ∧ length (rawMsgs st) = length (remove_dups msgs).
Proof.
  intros Hm Hp. rewrite batch_loop_run by lia. intros Hrun.
  pose proof (batch_run_count _ _ Hrun) as Hcount.
  pose proof (batch_run_inv _ _ Hrun) as Hinv.
  assert (length (zip3 rawSigs msgs pubKeys : list raw_entry) = length msgs) as Hl
    by (rewrite <- Hm; by apply zip3_length).
  assert (length (rawMsgs st) = length (remove_dups msgs)) as Hterms.
  { apply Permutation_length, NoDup_Permutation;
      [by eapply batch_inv_NoDup|apply NoDup_remove_dups|].
    intros m. rewrite (binv_msgs _ _ Hinv m), (r_msg_zip3 _ _ _ Hm Hp).
    by rewrite elem_of_remove_dups. }
  split; [|done]. rewrite <- Hterms, <- Hl. exact Hcount.
Qed.

Lemma kept_nonempty (b : list entry) : b ≠ [] → kept b ≠ [].
Proof. by destruct b. Qed.

(** X14.  [VerifyMultipleSignatures] gives the same boolean and error on
    the three slices that [removeDuplicates] returns for a batch as on the
    batch itself, under both settings of the flag: the entries that the
    filter drops have no influence on the result. *)
Theorem VerifyMultipleSignatures_of_filtered
    env randGen (sigs msgs : list bytes) (pubKeys : list PublicKey)
    sigs' msgs' pubKeys' :
  length sigs = length pubKeys → length sigs = length msgs →
  removeDuplicates sigs msgs pubKeys = Val (sigs', msgs', pubKeys', None) →
  VerifyMultipleSignatures env randGen sigs' msgs' pubKeys'
  = VerifyMultipleSignatures env randGen sigs msgs pubKeys.
Proof.
  intros Hp Hm Hrd.
  destruct (SkipBLSVerify (featureconfig_Get env)) eqn:Hflag.
  { unfold VerifyMultipleSignatures. by rewrite Hflag. }
  destruct (removeDuplicates_ok _ _ _ _ _ _ Hm Hp Hrd) as (Hm' & Hp' & _).
  destruct (decide (sigs = [])) as [->|Hne].
  { destruct msgs; [|done]. destruct pubKeys; [|done].
    vm_compute in Hrd. by injection Hrd as <- <- <-. }
  pose proof Hrd as Hk. rewrite (removeDuplicates_via_kept _ _ _ Hm Hp) in Hk.
  destruct (run_list dedup_step (zip3 sigs msgs pubKeys) dedup_init)
    as [st| |] eqn:Hrun; [|done..].
  injection Hk as Hs' Hms' Hk'.
  pose proof (removeDuplicates_kept_again _ _ Hrun) as Hid.
  rewrite Hs', Hms', Hk' in Hid.
  assert (sigs' ≠ []) as Hne'.
  { rewrite <- Hs'. unfold sigs_of. intros Hnil%fmap_nil_inv.
    apply kept_nonempty in Hnil; [done|].
    intros Hz.
    assert (length (zip3 sigs msgs pubKeys : list entry) = length sigs) as Hl
      by by apply zip3_length.
    rewrite Hz in Hl. by destruct sigs. }
  rewrite (VerifyMultipleSignatures_checked _ _ sigs' _ _ Hflag Hne'); [|lia..].
  rewrite (VerifyMultipleSignatures_checked _ _ sigs _ _ Hflag Hne Hp Hm).
  by rewrite Hid, Hrd.
Qed.

End BatchVerifier.

(** ** Encoding and copying signatures *)

Section Codec.
Context `{B : Blst}.

(** X11.  With SkipBLSVerify unset, decoding what [Marshal] produced gives
    the signature back, for every point whose compressed form has the
    signature length of the configuration and decompresses to that
    point. *)
Theorem SignatureFromBytes_Marshal env (p : P2Affine) :
  SkipBLSVerify (featureconfig_Get env) = false →
  length (P2Affine_Compress (Some p)) = BLSSignatureLength (params_BeaconConfig env) →
  P2Affine_Uncompress (P2Affine_Compress (Some p)) = Some p →
  SignatureFromBytes env (Marshal env (mkSignature (Some p)))
  = (Some (mkSignature (Some p)), None).
Proof.
  intros Hflag Hlen Hun. unfold SignatureFromBytes, Marshal. rewrite Hflag. simpl.
  by rewrite Hlen, Nat.eqb_refl, Hun.
Qed.

(** X12.  With SkipBLSVerify set, [Marshal] does not look at the signature:
    it returns the all-zero string of the signature length of the
    configuration, and decoding that string gives the signature without a
    point, so that the round trip forgets every point. *)
Theorem Marshal_when_skipping env (s : Signature) :
  SkipBLSVerify (featureconfig_Get env) = true →
  length (Marshal env s) = BLSSignatureLength (params_BeaconConfig env)
  ∧ (∀ c, c ∈ Marshal env s → c = Byte.x00)
  ∧ SignatureFromBytes env (Marshal env s) = (Some (mkSignature None), None)
  ∧ (fst (SignatureFromBytes env (Marshal env s)) = Some s ↔ Signature_s s = None).
Proof.
  intros Hflag. unfold SignatureFromBytes, Marshal. rewrite Hflag. simpl.
  split; [by rewrite length_replicate|].
  split; [by intros c [-> _]%elem_of_replicate|]. split; [done|].
  destruct s as [[p|]]; simpl; split; by intros [=].
Qed.

(** X13.  [Copy] has no SkipBLSVerify guard: on a signature that
    [SignatureFromBytes] returned it panics when the signature was decoded
    with the flag set, for it holds no point then, and returns an equal
    signature when it was decoded with the flag unset. *)
Theorem Copy_of_decoded env (sig : bytes) (s : Signature) err :
  SignatureFromBytes env sig = (Some s, err) →
  Copy s = if SkipBLSVerify (featureconfig_Get env) then Panic else Val s.
Proof.
  unfold SignatureFromBytes, Copy.
  destruct (SkipBLSVerify (featureconfig_Get env)).
  - by intros [= <- <-].
  - destruct (negb _); [done|].
    destruct (P2Affine_Uncompress sig) as [p|]; [|done].
    by intros [= <- <-].
Qed.

End Codec.

(** ** The further properties at concrete batches *)

Section ConcreteFurther.
Import Toy.


Lemma toy_batch_uncompress_fails (l : list bytes) x :
  x ∈ l → P2Affine_Uncompress x = None → P2Affine_BatchUncompress l = [].
Proof.
  simpl. intros Hin Hx. unfold batch_uncompress.
  rewrite (mapM_None_2 uncompress l); [done|].
  apply Exists_exists. by exists x.
Defined.


Lemma mixed_batch_filtered :
  removeDuplicates (sigs_of mixed_batch) (msgs_of mixed_batch) (keys_of mixed_batch)
  = Val (sigs_of [other_entry; valid_entry; merged_entry],
         msgs_of [other_entry; valid_entry; merged_entry],
         keys_of [other_entry; valid_entry; merged_entry], None).
Proof. vm_compute. reflexivity. Defined.

Lemma removeDuplicates_shape_witness :
  length (sigs_of mixed_batch) = length (msgs_of mixed_batch)
  ∧ length (sigs_of mixed_batch) = length (keys_of mixed_batch)
  ∧ removeDuplicates (sigs_of mixed_batch) (msgs_of mixed_batch) (keys_of mixed_batch)
    = Val (sigs_of [other_entry; valid_entry; merged_entry],
           msgs_of [other_entry; valid_entry; merged_entry],
           keys_of [other_entry; valid_entry; merged_entry], None)
  ∧ length (sigs_of [other_entry; valid_entry; merged_entry])
    ≤ length (sigs_of mixed_batch)
  ∧ zip3 (sigs_of [other_entry; valid_entry; merged_entry])
         (msgs_of [other_entry; valid_entry; merged_entry])
         (keys_of [other_entry; valid_entry; merged_entry])
    `sublist_of` zip3 (sigs_of mixed_batch) (msgs_of mixed_batch) (keys_of mixed_batch).
Proof.
  split; [reflexivity|]. split; [reflexivity|]. split; [exact mixed_batch_filtered|].
  destruct (removeDuplicates_shape
              (sigs_of mixed_batch) (msgs_of mixed_batch) (keys_of mixed_batch)
              _ _ _ eq_refl eq_refl mixed_batch_filtered)
    as (_ & _ & Hle & Hsub & _).
  split; [exact Hle|exact Hsub].
Defined.

Lemma distinct_batch_NoDup : NoDup (msgs_of distinct_batch).
Proof.
  apply NoDup_cons. split.
  - intros Hin%list_elem_of_singleton. discriminate Hin.
  - apply NoDup_singleton.
Defined.

Lemma removeDuplicates_distinct_messages_witness :
  length (sigs_of distinct_batch) = length (msgs_of distinct_batch)
  ∧ length (sigs_of distinct_batch) = length (keys_of distinct_batch)
  ∧ NoDup (msgs_of distinct_batch)
  ∧ removeDuplicates (sigs_of distinct_batch) (msgs_of distinct_batch) (keys_of distinct_batch)
    = Val (sigs_of distinct_batch, msgs_of distinct_batch, keys_of distinct_batch, None).
Proof.
  split; [reflexivity|]. split; [reflexivity|]. split; [exact distinct_batch_NoDup|].
  apply (removeDuplicates_distinct_messages
           (sigs_of distinct_batch) (msgs_of distinct_batch) (keys_of distinct_batch)
           eq_refl eq_refl distinct_batch_NoDup).
Defined.

Lemma removeDuplicates_idempotent_witness :
  length (sigs_of mixed_batch) = length (msgs_of mixed_batch)
  ∧ length (sigs_of mixed_batch) = length (keys_of mixed_batch)
  ∧ removeDuplicates (sigs_of mixed_batch) (msgs_of mixed_batch) (keys_of mixed_batch)
    = Val (sigs_of [other_entry; valid_entry; merged_entry],
           msgs_of [other_entry; valid_entry; merged_entry],
           keys_of [other_entry; valid_entry; merged_entry], None)
  ∧ removeDuplicates (sigs_of [other_entry; valid_entry; merged_entry])
                     (msgs_of [other_entry; valid_entry; merged_entry])
                     (keys_of [other_entry; valid_entry; merged_entry])
    = Val (sigs_of [other_entry; valid_entry; merged_entry],
           msgs_of [other_entry; valid_entry; merged_entry],
           keys_of [other_entry; valid_entry; merged_entry], None).
Proof.
  split; [reflexivity|]. split; [reflexivity|]. split; [exact mixed_batch_filtered|].
  apply (removeDuplicates_idempotent
           (sigs_of mixed_batch) (msgs_of mixed_batch) (keys_of mixed_batch)
           _ _ _ eq_refl eq_refl mixed_batch_filtered).
Defined.

Lemma removeDuplicates_short_slices_witness :
  length [m1] < length (sigs_of distinct_batch)
  ∧ (removeDuplicates (sigs_of distinct_batch) [m1] (keys_of distinct_batch) = Panic
     ∨ removeDuplicates (sigs_of distinct_batch) [m1] (keys_of distinct_batch)
       = Val ([], [], [], Some ErrInvalidPair)).
Proof.
  assert (length [m1] < length (sigs_of distinct_batch)) as Hlt by (simpl; lia).
  split; [exact Hlt|].
  apply (removeDuplicates_short_slices (sigs_of distinct_batch) [m1]
           (keys_of distinct_batch)).
  left. exact Hlt.
Defined.

Lemma VerifyMultipleSignatures_error_iff_witness :
  SkipBLSVerify (featureconfig_Get real) = false
  ∧ ∃ b err,
      VerifyMultipleSignatures real (gen 7) (sigs_of distinct_batch) [m1]
        (keys_of distinct_batch) = Val (b, Some err).
Proof.
  split; [reflexivity|].
  apply (VerifyMultipleSignatures_error_iff real (gen 7) (sigs_of distinct_batch)
           [m1] (keys_of distinct_batch) eq_refl).
  split; [discriminate|]. split; [discriminate|].
  left. intros [_ Hlen]. discriminate Hlen.
Defined.


Lemma VerifyMultipleSignatures_distinct_messages_witness :
  SkipBLSVerify (featureconfig_Get real) = false
  ∧ sigs_of distinct_batch ≠ []
  ∧ NoDup (msgs_of distinct_batch)
  ∧ length (P2Affine_BatchUncompress (sigs_of distinct_batch))
    = length (sigs_of distinct_batch)
  ∧ VerifyMultipleSignatures real (gen 7) (sigs_of distinct_batch)
      (msgs_of distinct_batch) (keys_of distinct_batch)
    = Val (P2Affine_MultipleAggregateVerify
             (P2Affine_BatchUncompress (sigs_of distinct_batch))
             (PublicKey_p <$> keys_of distinct_batch) (msgs_of distinct_batch) dst
             randFunc (gen 7) randBitsEntropy, None).
Proof.
  assert (sigs_of distinct_batch ≠ []) as Hne by discriminate.
  split; [reflexivity|]. split; [exact Hne|]. split; [exact distinct_batch_NoDup|].
  split; [reflexivity|].
  apply (VerifyMultipleSignatures_distinct_messages real (gen 7)
           (sigs_of distinct_batch) (msgs_of distinct_batch) (keys_of distinct_batch)
           eq_refl Hne eq_refl eq_refl distinct_batch_NoDup eq_refl).
Defined.

Lemma bad_batch_NoDup : NoDup (msgs_of bad_batch).
Proof.
  apply NoDup_cons. split.
  - intros Hin%list_elem_of_singleton. discriminate Hin.
  - apply NoDup_singleton.
Defined.

Lemma bad_batch_no_conflict :
  ¬ has_conflict (zip3 (sigs_of bad_batch) (msgs_of bad_batch) (keys_of bad_batch)).
Proof. apply (distinct_no_conflict bad_batch bad_batch_NoDup). Defined.

Lemma VerifyMultipleSignatures_undecodable_witness :
  SkipBLSVerify (featureconfig_Get real) = false
  ∧ [Byte.xff] ∈ sigs_of bad_batch
  ∧ P2Affine_Uncompress [Byte.xff] = None
  ∧ VerifyMultipleSignatures real (gen 7) (sigs_of bad_batch) (msgs_of bad_batch)
      (keys_of bad_batch)
    = Val (P2Affine_MultipleAggregateVerify [] [] [] dst
             randFunc (gen 7) randBitsEntropy, None).
Proof.
  assert ([Byte.xff] ∈ sigs_of bad_batch) as Hin.
  { apply list_elem_of_further, list_elem_of_here. }
  split; [reflexivity|]. split; [exact Hin|]. split; [reflexivity|].
  apply (VerifyMultipleSignatures_undecodable real (gen 7)
           (sigs_of bad_batch) (msgs_of bad_batch) (keys_of bad_batch) [Byte.xff]
           eq_refl eq_refl eq_refl bad_batch_no_conflict
           toy_batch_uncompress_fails Hin eq_refl).
Defined.

Lemma repeatedSigs_counts_repeated_messages_witness :
  let rawSigs := P2Affine_BatchUncompress (sigs_of [other_entry; valid_entry; merged_entry]) in
  let msgs := msgs_of [other_entry; valid_entry; merged_entry] in
  let pubKeys := keys_of [other_entry; valid_entry; merged_entry] in
  length rawSigs = length msgs
  ∧ length rawSigs = length pubKeys
  ∧ ∃ st,
      for_loop (VerifyMultipleSignatures_body rawSigs msgs pubKeys)
               (length rawSigs) 0 batch_init = Next st
      ∧ repeatedSigs st + length (remove_dups msgs) = length msgs
      ∧ length (rawMsgs st) = length (remove_dups msgs).
Proof.
  intros rawSigs msgs pubKeys.
  split; [reflexivity|]. split; [reflexivity|].
  destruct (for_loop (VerifyMultipleSignatures_body rawSigs msgs pubKeys)
                     (length rawSigs) 0 batch_init) as [st|r|] eqn:Hloop.
  - exists st. split; [reflexivity|].
    apply (repeatedSigs_counts_repeated_messages rawSigs msgs pubKeys st
             eq_refl eq_refl Hloop).
  - destruct r.
  - vm_compute in Hloop. discriminate Hloop.
Defined.

Lemma VerifyMultipleSignatures_of_filtered_witness :
  length (sigs_of mixed_batch) = length (keys_of mixed_batch)
  ∧ length (sigs_of mixed_batch) = length (msgs_of mixed_batch)
  ∧ removeDuplicates (sigs_of mixed_batch) (msgs_of mixed_batch) (keys_of mixed_batch)
    = Val (sigs_of [other_entry; valid_entry; merged_entry],
           msgs_of [other_entry; valid_entry; merged_entry],
           keys_of [other_entry; valid_entry; merged_entry], None)
  ∧ VerifyMultipleSignatures real (gen 7)
      (sigs_of [other_entry; valid_entry; merged_entry])
      (msgs_of [other_entry; valid_entry; merged_entry])
      (keys_of [other_entry; valid_entry; merged_entry])
    = VerifyMultipleSignatures real (gen 7) (sigs_of mixed_batch)
        (msgs_of mixed_batch) (keys_of mixed_batch).
Proof.
  split; [reflexivity|]. split; [reflexivity|]. split; [exact mixed_batch_filtered|].
  apply (VerifyMultipleSignatures_of_filtered real (gen 7)
           (sigs_of mixed_batch) (msgs_of mixed_batch) (keys_of mixed_batch)
           _ _ _ eq_refl eq_refl mixed_batch_filtered).
Defined.

Lemma SignatureFromBytes_Marshal_witness :
  SkipBLSVerify (featureconfig_Get real) = false
  ∧ length (P2Affine_Compress (Some 3%Z)) = BLSSignatureLength (params_BeaconConfig real)
  ∧ P2Affine_Uncompress (P2Affine_Compress (Some 3%Z)) = Some 3%Z
  ∧ SignatureFromBytes real (Marshal real (signature 3))
    = (Some (signature 3), None).
Proof.
  split; [reflexivity|]. split; [reflexivity|]. split; [reflexivity|].
  apply (SignatureFromBytes_Marshal real (3%Z : @P2Affine toy_blst)
           eq_refl eq_refl eq_refl).
Defined.

Lemma Marshal_when_skipping_witness :
  SkipBLSVerify (featureconfig_Get skipping) = true
  ∧ length (Marshal skipping (signature 3)) = 96
  ∧ SignatureFromBytes skipping (Marshal skipping (signature 3))
    = (Some no_signature, None).
Proof.
  split; [reflexivity|].
  destruct (Marshal_when_skipping skipping (signature 3) eq_refl)
    as (Hlen & _ & Hdec & _).
  split; [exact Hlen|exact Hdec].
Defined.

Lemma Copy_of_decoded_witness :
  SignatureFromBytes skipping [Byte.x02] = (Some no_signature, None)
  ∧ Copy no_signature = Panic.
Proof.
  split; [reflexivity|].
  apply (Copy_of_decoded skipping [Byte.x02] no_signature None eq_refl).
Defined.

End ConcreteFurther.
